(** * WebGLModelLoader: a shallow embedding of [model-loader-component.js]

    The custom element [<webgl-model-loader>] is modelled by explicit state
    passing.  The fields of [this] form the record [Widget]; what the element
    does to its surroundings (objects of the scene graph, calls of
    [dispose()], callbacks queued with [requestAnimationFrame], requests
    handed to the GLTF loader, events dispatched to the host) is kept in the
    record [World].  Every method and every callback of the class is a
    function on worlds that follows the source statement by statement.

    Conventions:
    - JavaScript numbers are the type [number]: a real number, one of the
      two infinities, or NaN.  Rounding is idealised (a finite result is the
      exact real) and the sign of zero is not tracked; the special values
      follow IEEE 754.
    - Objects of the scene graph live in a heap and are referred to by
      their index, so that [this.model] and the child of the scene are one
      object.
    - Three.js and the loader are outside the element.  What they compute
      is an input of the callback that uses it: the loader's answer, and the
      box that [setFromObject] measures for the model.
    - A callback that reads a property of [null] or [undefined] ends with
      [Throw], in the state it had reached. *)

From Stdlib Require Import Reals Lra ZArith Ascii String.
From stdpp Require Import base option list strings gmap.

Local Open Scope R_scope.

(** ** Numbers *)

Inductive number : Type :=
| Finite (r : R)
| PosInfinity
| NegInfinity
| NaN.

Definition Rgtb (a b : R) : bool := if Rgt_dec a b then true else false.
Definition Rltb (a b : R) : bool := if Rlt_dec a b then true else false.
Definition Reqb (a b : R) : bool := if Req_dec_T a b then true else false.

Definition isFinite (n : number) : bool :=
  match n with Finite _ => true | _ => false end.

Definition isNaN (n : number) : bool :=
  match n with NaN => true | _ => false end.

(** [a + b] *)
Definition nadd (a b : number) : number :=
  match a, b with
  | NaN, _ | _, NaN => NaN
  | Finite x, Finite y => Finite (x + y)
  | PosInfinity, NegInfinity | NegInfinity, PosInfinity => NaN
  | PosInfinity, _ | _, PosInfinity => PosInfinity
  | NegInfinity, _ | _, NegInfinity => NegInfinity
  end.

Definition nneg (a : number) : number :=
  match a with
  | Finite x => Finite (- x)
  | PosInfinity => NegInfinity
  | NegInfinity => PosInfinity
  | NaN => NaN
  end.

(** [a - b] *)
Definition nsub (a b : number) : number := nadd a (nneg b).

(** The infinity whose sign is that of [x] times the sign of [pos]. *)
Definition signed_infinity (pos : bool) (x : R) : number :=
  if Rltb x 0 then (if pos then NegInfinity else PosInfinity)
  else (if pos then PosInfinity else NegInfinity).

(** [a * b] *)
Definition nmul (a b : number) : number :=
  match a, b with
  | NaN, _ | _, NaN => NaN
  | Finite x, Finite y => Finite (x * y)
  | Finite x, PosInfinity | PosInfinity, Finite x =>
      if Reqb x 0 then NaN else signed_infinity true x
  | Finite x, NegInfinity | NegInfinity, Finite x =>
      if Reqb x 0 then NaN else signed_infinity false x
  | PosInfinity, PosInfinity | NegInfinity, NegInfinity => PosInfinity
  | PosInfinity, NegInfinity | NegInfinity, PosInfinity => NegInfinity
  end.

(** [a / b]: a finite number over zero is an infinity, zero over zero and
    infinity over infinity are NaN. *)
Definition ndiv (a b : number) : number :=
  match a, b with
  | NaN, _ | _, NaN => NaN
  | Finite x, Finite y =>
      if Reqb y 0
      then (if Reqb x 0 then NaN else signed_infinity true x)
      else Finite (x / y)
  | Finite _, _ => Finite 0
  | PosInfinity, Finite y => signed_infinity true y
  | NegInfinity, Finite y => signed_infinity false y
  | _, _ => NaN
  end.

(** [Math.abs] *)
Definition Math_abs (a : number) : number :=
  match a with
  | Finite x => Finite (Rabs x)
  | PosInfinity | NegInfinity => PosInfinity
  | NaN => NaN
  end.

(** [Math.tan] *)
Definition Math_tan (a : number) : number :=
  match a with
  | Finite x => Finite (tan x)
  | _ => NaN
  end.

(** [Math.max] on two arguments. *)
Definition Math_max2 (a b : number) : number :=
  match a, b with
  | NaN, _ | _, NaN => NaN
  | PosInfinity, _ | _, PosInfinity => PosInfinity
  | NegInfinity, c | c, NegInfinity => c
  | Finite x, Finite y => Finite (Rmax x y)
  end.

(** [Math.max(a, b, c)] *)
Definition Math_max (a b c : number) : number := Math_max2 (Math_max2 a b) c.

(** ** [parseFloat]

    The longest prefix of the trimmed string that is a decimal literal
    (sign, digits, fraction, exponent) or a signed [Infinity]; NaN when there
    is none. *)

Inductive parsed : Type :=
| PNaN
| PInfinity (negative : bool)
| PDecimal (mantissa exponent : Z).

Definition is_whitespace (c : ascii) : bool :=
  let n := nat_of_ascii c in
  (Nat.eqb n 32 || Nat.eqb n 9 || Nat.eqb n 10 || Nat.eqb n 11
   || Nat.eqb n 12 || Nat.eqb n 13)%bool.

Fixpoint skip_whitespace (s : string) : string :=
  match s with
  | String c r => if is_whitespace c then skip_whitespace r else s
  | EmptyString => s
  end.

Definition digit_value (c : ascii) : option Z :=
  let n := nat_of_ascii c in
  if (Nat.leb 48 n && Nat.leb n 57)%bool then Some (Z.of_nat (n - 48)) else None.

(** Reads a run of digits: its value on top of [acc], how many digits were
    read, and the rest of the string. *)
Fixpoint read_digits (s : string) (acc : Z) (count : Z) : Z * Z * string :=
  match s with
  | String c r =>
      match digit_value c with
      | Some d => read_digits r (acc * 10 + d)%Z (count + 1)%Z
      | None => (acc, count, s)
      end
  | EmptyString => (acc, count, s)
  end.

Definition read_sign (s : string) : bool * string :=
  match s with
  | String "-" r => (true, r)
  | String "+" r => (false, r)
  | _ => (false, s)
  end.

Definition read_exponent (s : string) : Z :=
  match s with
  | String c r =>
      if (Ascii.eqb c "e" || Ascii.eqb c "E")%bool then
        let '(neg, r') := read_sign r in
        let '(e, n, _) := read_digits r' 0%Z 0%Z in
        if (n =? 0)%Z then 0%Z else if neg then (- e)%Z else e
      else 0%Z
  | EmptyString => 0%Z
  end.

Definition parse_decimal (s : string) : parsed :=
  let '(neg, s1) := read_sign (skip_whitespace s) in
  if String.prefix "Infinity" s1 then PInfinity neg
  else
    let '(ip, ni, s2) := read_digits s1 0%Z 0%Z in
    let '(m, nf, s3) :=
      match s2 with
      | String "." r => let '(m, nf, s3) := read_digits r ip 0%Z in (m, nf, s3)
      | _ => (ip, 0%Z, s2)
      end in
    if (ni + nf =? 0)%Z then PNaN
    else PDecimal (if neg then - m else m)%Z (read_exponent s3 - nf)%Z.

Definition number_of_parsed (p : parsed) : number :=
  match p with
  | PNaN => NaN
  | PInfinity neg => if neg then NegInfinity else PosInfinity
  | PDecimal m e => Finite (IZR m * powerRZ 10 e)
  end.

Definition parseFloat (s : string) : number := number_of_parsed (parse_decimal s).

(** [a || b] on a value that is [null] or a string: [null] and the empty
    string are falsy. *)
Definition or_default (a : option string) (b : string) : string :=
  match a with
  | Some (String _ _ as s) => s
  | Some EmptyString | None => b
  end.

(** ** The scene graph *)

Record Vector3 : Type := mkVector3 { x : number; y : number; z : number }.

Definition vec (a b c : R) : Vector3 := mkVector3 (Finite a) (Finite b) (Finite c).

Definition vsub (a b : Vector3) : Vector3 :=
  mkVector3 (nsub (x a) (x b)) (nsub (y a) (y b)) (nsub (z a) (z b)).

Definition vadd (a b : Vector3) : Vector3 :=
  mkVector3 (nadd (x a) (x b)) (nadd (y a) (y b)) (nadd (z a) (z b)).

Definition vscale (a : Vector3) (k : number) : Vector3 :=
  mkVector3 (nmul (x a) k) (nmul (y a) k) (nmul (z a) k).

(** [a < b] on numbers; false when either is NaN. *)
Definition nltb (a b : number) : bool :=
  match a, b with
  | NaN, _ | _, NaN => false
  | Finite p, Finite q => Rltb p q
  | NegInfinity, NegInfinity => false
  | NegInfinity, _ => true
  | _, PosInfinity => match a with PosInfinity => false | _ => true end
  | _, _ => false
  end.

(** [THREE.Box3]: an axis-aligned box.  The empty box, which
    [setFromObject] returns for an object without geometry, has
    [min = +Infinity] and [max = -Infinity]. *)
Record Box3 : Type := mkBox3 { box_min : Vector3; box_max : Vector3 }.

Definition empty_box : Box3 :=
  mkBox3 (mkVector3 PosInfinity PosInfinity PosInfinity)
         (mkVector3 NegInfinity NegInfinity NegInfinity).

Definition isEmpty (b : Box3) : bool :=
  (nltb (x (box_max b)) (x (box_min b))
   || nltb (y (box_max b)) (y (box_min b))
   || nltb (z (box_max b)) (z (box_min b)))%bool.

Definition getCenter (b : Box3) : Vector3 :=
  if isEmpty b then vec 0 0 0
  else vscale (vadd (box_min b) (box_max b)) (Finite 0.5).

Definition getSize (b : Box3) : Vector3 :=
  if isEmpty b then vec 0 0 0 else vsub (box_max b) (box_min b).

(** The material slot of a mesh: one material or an array of them. *)
Inductive Material : Type :=
| SingleMaterial (m : nat)
| ArrayMaterial (ms : list nat).

#[local] Set Warnings "-register-all".

(** [THREE.Object3D].  Geometries and materials are named by numbers; the
    transform keeps what the element touches. *)
Inductive Object3D : Type := mkObject3D {
  geometry : option nat;
  material : option Material;
  children : list Object3D;
  position : Vector3;
  rotation_y : number;
  scale : Vector3
}.

Definition set_position (v : Vector3) (o : Object3D) : Object3D :=
  mkObject3D (geometry o) (material o) (children o) v (rotation_y o) (scale o).

Definition set_rotation_y (v : number) (o : Object3D) : Object3D :=
  mkObject3D (geometry o) (material o) (children o) (position o) v (scale o).

Definition set_scale (v : Vector3) (o : Object3D) : Object3D :=
  mkObject3D (geometry o) (material o) (children o) (position o) (rotation_y o) v.

(** An object without geometry: a light, a group, the scene itself. *)
Definition plain_object (p : Vector3) : Object3D :=
  mkObject3D None None [] p (Finite 0) (vec 1 1 1).

(** A GPU resource that has a [dispose()] method. *)
Inductive Resource : Type :=
| GeometryResource (g : nat)
| MaterialResource (m : nat).

(** [THREE.Scene]: objects are referred to by their index in the heap of
    the world, so that [this.model] and the child of the scene are one
    object. *)
Record Scene : Type := mkScene {
  background : option string;
  scene_children : list nat
}.

Record PerspectiveCamera : Type := mkCamera {
  fov : number;
  aspect : number;
  camera_position : Vector3
}.

Record WebGLRenderer : Type := mkRenderer {
  dispose_calls : nat;
  render_calls : nat
}.

Record AnimationMixer : Type := mkMixer {
  mixer_root : nat;
  playing : list string;
  mixer_time : number
}.

(** What the loader hands to the success callback. *)
Record GLTF : Type := mkGLTF {
  gltf_scene : Object3D;
  animations : list string
}.

Inductive EventDetail : Type :=
| DetailModel (model : nat)
| DetailError (error : string).

Record CustomEvent : Type := mkCustomEvent {
  event_type : string;
  bubbles : bool;
  composed : bool;
  detail : EventDetail
}.

(** [THREE.Clock] with [autoStart]: the first [getDelta()] starts it. *)
Record Clock : Type := mkClock { running : bool; oldTime : R }.

Record Touch : Type := mkTouch { clientX : R; clientY : R }.

Record TouchEvent : Type := mkTouchEvent { touches : list Touch }.

(** ** The element and its surroundings *)

(** What the callbacks write to the console. *)
Inductive LogEntry : Type :=
| LogProgress (percent : number)
| LogError (error : string).

(** The fields of [this].  Those that [connectedCallback] creates are
    [None] (undefined) before. *)
Record Widget : Type := mkWidget {
  attributes : gmap string string;
  scene : option Scene;
  camera : option PerspectiveCamera;
  renderer : option WebGLRenderer;
  model : option nat;
  animationMixer : option AnimationMixer;
  clock : Clock;
  isAutoRotate : bool;
  rotateSpeed : number;
  isInitialized : bool;
  isTouchDevice : bool;
  touchStartX : R;
  touchStartY : R;
  touchThreshold : R;
  isHorizontalPan : bool;
  touchMoveStarted : bool;
  width : option string;
  height : option string;
  modelUrl : option string;
  backgroundColor : option string;
  modelScale : option number
}.

Definition set_attributes (v : gmap string string) (r : Widget) : Widget :=
  mkWidget
    v (scene r) (camera r) (renderer r) (model r) (animationMixer r) (clock r)
    (isAutoRotate r) (rotateSpeed r) (isInitialized r) (isTouchDevice r)
    (touchStartX r) (touchStartY r) (touchThreshold r) (isHorizontalPan r)
    (touchMoveStarted r) (width r) (height r) (modelUrl r) (backgroundColor r)
    (modelScale r).

Definition set_scene (v : option Scene) (r : Widget) : Widget :=
  mkWidget
    (attributes r) v (camera r) (renderer r) (model r) (animationMixer r)
    (clock r) (isAutoRotate r) (rotateSpeed r) (isInitialized r)
    (isTouchDevice r) (touchStartX r) (touchStartY r) (touchThreshold r)
    (isHorizontalPan r) (touchMoveStarted r) (width r) (height r) (modelUrl r)
    (backgroundColor r) (modelScale r).

Definition set_camera (v : option PerspectiveCamera) (r : Widget) : Widget :=
  mkWidget
    (attributes r) (scene r) v (renderer r) (model r) (animationMixer r)
    (clock r) (isAutoRotate r) (rotateSpeed r) (isInitialized r)
    (isTouchDevice r) (touchStartX r) (touchStartY r) (touchThreshold r)
    (isHorizontalPan r) (touchMoveStarted r) (width r) (height r) (modelUrl r)
    (backgroundColor r) (modelScale r).

Definition set_renderer (v : option WebGLRenderer) (r : Widget) : Widget :=
  mkWidget
    (attributes r) (scene r) (camera r) v (model r) (animationMixer r) (clock
    r) (isAutoRotate r) (rotateSpeed r) (isInitialized r) (isTouchDevice r)
    (touchStartX r) (touchStartY r) (touchThreshold r) (isHorizontalPan r)
    (touchMoveStarted r) (width r) (height r) (modelUrl r) (backgroundColor r)
    (modelScale r).

Definition set_model (v : option nat) (r : Widget) : Widget :=
  mkWidget
    (attributes r) (scene r) (camera r) (renderer r) v (animationMixer r)
    (clock r) (isAutoRotate r) (rotateSpeed r) (isInitialized r)
    (isTouchDevice r) (touchStartX r) (touchStartY r) (touchThreshold r)
    (isHorizontalPan r) (touchMoveStarted r) (width r) (height r) (modelUrl r)
    (backgroundColor r) (modelScale r).

Definition set_animationMixer (v : option AnimationMixer) (r : Widget) : Widget :=
  mkWidget
    (attributes r) (scene r) (camera r) (renderer r) (model r) v (clock r)
    (isAutoRotate r) (rotateSpeed r) (isInitialized r) (isTouchDevice r)
    (touchStartX r) (touchStartY r) (touchThreshold r) (isHorizontalPan r)
    (touchMoveStarted r) (width r) (height r) (modelUrl r) (backgroundColor r)
    (modelScale r).

Definition set_clock (v : Clock) (r : Widget) : Widget :=
  mkWidget
    (attributes r) (scene r) (camera r) (renderer r) (model r) (animationMixer
    r) v (isAutoRotate r) (rotateSpeed r) (isInitialized r) (isTouchDevice r)
    (touchStartX r) (touchStartY r) (touchThreshold r) (isHorizontalPan r)
    (touchMoveStarted r) (width r) (height r) (modelUrl r) (backgroundColor r)
    (modelScale r).

Definition set_isAutoRotate (v : bool) (r : Widget) : Widget :=
  mkWidget
    (attributes r) (scene r) (camera r) (renderer r) (model r) (animationMixer
    r) (clock r) v (rotateSpeed r) (isInitialized r) (isTouchDevice r)
    (touchStartX r) (touchStartY r) (touchThreshold r) (isHorizontalPan r)
    (touchMoveStarted r) (width r) (height r) (modelUrl r) (backgroundColor r)
    (modelScale r).

Definition set_rotateSpeed (v : number) (r : Widget) : Widget :=
  mkWidget
    (attributes r) (scene r) (camera r) (renderer r) (model r) (animationMixer
    r) (clock r) (isAutoRotate r) v (isInitialized r) (isTouchDevice r)
    (touchStartX r) (touchStartY r) (touchThreshold r) (isHorizontalPan r)
    (touchMoveStarted r) (width r) (height r) (modelUrl r) (backgroundColor r)
    (modelScale r).

Definition set_isInitialized (v : bool) (r : Widget) : Widget :=
  mkWidget
    (attributes r) (scene r) (camera r) (renderer r) (model r) (animationMixer
    r) (clock r) (isAutoRotate r) (rotateSpeed r) v (isTouchDevice r)
    (touchStartX r) (touchStartY r) (touchThreshold r) (isHorizontalPan r)
    (touchMoveStarted r) (width r) (height r) (modelUrl r) (backgroundColor r)
    (modelScale r).

Definition set_touchStartX (v : R) (r : Widget) : Widget :=
  mkWidget
    (attributes r) (scene r) (camera r) (renderer r) (model r) (animationMixer
    r) (clock r) (isAutoRotate r) (rotateSpeed r) (isInitialized r)
    (isTouchDevice r) v (touchStartY r) (touchThreshold r) (isHorizontalPan r)
    (touchMoveStarted r) (width r) (height r) (modelUrl r) (backgroundColor r)
    (modelScale r).

Definition set_touchStartY (v : R) (r : Widget) : Widget :=
  mkWidget
    (attributes r) (scene r) (camera r) (renderer r) (model r) (animationMixer
    r) (clock r) (isAutoRotate r) (rotateSpeed r) (isInitialized r)
    (isTouchDevice r) (touchStartX r) v (touchThreshold r) (isHorizontalPan r)
    (touchMoveStarted r) (width r) (height r) (modelUrl r) (backgroundColor r)
    (modelScale r).

Definition set_isHorizontalPan (v : bool) (r : Widget) : Widget :=
  mkWidget
    (attributes r) (scene r) (camera r) (renderer r) (model r) (animationMixer
    r) (clock r) (isAutoRotate r) (rotateSpeed r) (isInitialized r)
    (isTouchDevice r) (touchStartX r) (touchStartY r) (touchThreshold r) v
    (touchMoveStarted r) (width r) (height r) (modelUrl r) (backgroundColor r)
    (modelScale r).

Definition set_touchMoveStarted (v : bool) (r : Widget) : Widget :=
  mkWidget
    (attributes r) (scene r) (camera r) (renderer r) (model r) (animationMixer
    r) (clock r) (isAutoRotate r) (rotateSpeed r) (isInitialized r)
    (isTouchDevice r) (touchStartX r) (touchStartY r) (touchThreshold r)
    (isHorizontalPan r) v (width r) (height r) (modelUrl r) (backgroundColor
    r) (modelScale r).

(** The surroundings of the element:
    - [heap]: the objects of the scene graph, an object's identity being its
      index;
    - [disposed]: the calls of [dispose()] on geometries and materials, in
      order;
    - [frames]: the callbacks queued with [requestAnimationFrame];
    - [inflight]: the requests the loader has not answered yet, numbered in
      the order of issue;
    - [dispatched]: the events dispatched on the element;
    - [now]: the wall clock, [clientWidth] and [clientHeight]: the size of
      the container. *)
Record World : Type := mkWorld {
  this : Widget;
  heap : list Object3D;
  disposed : list Resource;
  frames : nat;
  inflight : list (nat * string);
  next_request : nat;
  dispatched : list CustomEvent;
  console : list LogEntry;
  resize_listeners : nat;
  touch_listeners : bool;
  now : R;
  clientWidth : R;
  clientHeight : R
}.

Definition set_this (v : Widget) (r : World) : World :=
  mkWorld
    v (heap r) (disposed r) (frames r) (inflight r) (next_request r)
    (dispatched r) (console r) (resize_listeners r) (touch_listeners r) (now
    r) (clientWidth r) (clientHeight r).

Definition set_heap (v : list Object3D) (r : World) : World :=
  mkWorld
    (this r) v (disposed r) (frames r) (inflight r) (next_request r)
    (dispatched r) (console r) (resize_listeners r) (touch_listeners r) (now
    r) (clientWidth r) (clientHeight r).

Definition set_disposed (v : list Resource) (r : World) : World :=
  mkWorld
    (this r) (heap r) v (frames r) (inflight r) (next_request r) (dispatched
    r) (console r) (resize_listeners r) (touch_listeners r) (now r)
    (clientWidth r) (clientHeight r).

Definition set_frames (v : nat) (r : World) : World :=
  mkWorld
    (this r) (heap r) (disposed r) v (inflight r) (next_request r) (dispatched
    r) (console r) (resize_listeners r) (touch_listeners r) (now r)
    (clientWidth r) (clientHeight r).

Definition set_inflight (v : list (nat * string)) (r : World) : World :=
  mkWorld
    (this r) (heap r) (disposed r) (frames r) v (next_request r) (dispatched
    r) (console r) (resize_listeners r) (touch_listeners r) (now r)
    (clientWidth r) (clientHeight r).

Definition set_next_request (v : nat) (r : World) : World :=
  mkWorld
    (this r) (heap r) (disposed r) (frames r) (inflight r) v (dispatched r)
    (console r) (resize_listeners r) (touch_listeners r) (now r) (clientWidth
    r) (clientHeight r).

Definition set_dispatched (v : list CustomEvent) (r : World) : World :=
  mkWorld
    (this r) (heap r) (disposed r) (frames r) (inflight r) (next_request r) v
    (console r) (resize_listeners r) (touch_listeners r) (now r) (clientWidth
    r) (clientHeight r).

Definition set_console (v : list LogEntry) (r : World) : World :=
  mkWorld
    (this r) (heap r) (disposed r) (frames r) (inflight r) (next_request r)
    (dispatched r) v (resize_listeners r) (touch_listeners r) (now r)
    (clientWidth r) (clientHeight r).

Definition set_resize_listeners (v : nat) (r : World) : World :=
  mkWorld
    (this r) (heap r) (disposed r) (frames r) (inflight r) (next_request r)
    (dispatched r) (console r) v (touch_listeners r) (now r) (clientWidth r)
    (clientHeight r).

Definition set_touch_listeners (v : bool) (r : World) : World :=
  mkWorld
    (this r) (heap r) (disposed r) (frames r) (inflight r) (next_request r)
    (dispatched r) (console r) (resize_listeners r) v (now r) (clientWidth r)
    (clientHeight r).

Definition set_now (v : R) (r : World) : World :=
  mkWorld
    (this r) (heap r) (disposed r) (frames r) (inflight r) (next_request r)
    (dispatched r) (console r) (resize_listeners r) (touch_listeners r) v
    (clientWidth r) (clientHeight r).

Definition set_configuration
    (w h url bg : string) (auto : bool) (speed scale : number) (r : Widget) : Widget :=
  mkWidget
    (attributes r) (scene r) (camera r) (renderer r) (model r) (animationMixer r)
    (clock r) auto speed (isInitialized r) (isTouchDevice r)
    (touchStartX r) (touchStartY r) (touchThreshold r) (isHorizontalPan r)
    (touchMoveStarted r) (Some w) (Some h) (Some url) (Some bg) (Some scale).

(** ** Helpers of the embedding *)

(** How a callback ends: it returns, or an exception leaves it (a property
    read on [null] or [undefined]). *)
Inductive completion : Type := Normal | Throw.

Definition bind (r : World * completion) (k : World -> World * completion)
  : World * completion :=
  match r with
  | (w, Normal) => k w
  | (w, Throw) => (w, Throw)
  end.

Notation "'run' w <- a ; k" := (bind a (fun w => k))
  (at level 10, w name, a at level 100, k at level 200, only parsing).

Definition update_this (f : Widget -> Widget) (w : World) : World :=
  set_this (f (this w)) w.

(** A write through a reference into the heap. *)
Definition update_object (r : nat) (f : Object3D -> Object3D) (w : World) : World :=
  set_heap (alter f r (heap w)) w.

(** A new object: its reference is the next free index. *)
Definition alloc (o : Object3D) (w : World) : nat * World :=
  (length (heap w), set_heap (heap w ++ [o]) w).

(** [this.scene.m(...)] for a method that changes the scene; throws when
    [this.scene] is [null]. *)
Definition with_scene (f : Scene -> Scene) (w : World) : World * completion :=
  match scene (this w) with
  | Some s => (update_this (set_scene (Some (f s))) w, Normal)
  | None => (w, Throw)
  end.

Definition with_camera (f : PerspectiveCamera -> PerspectiveCamera) (w : World)
  : World * completion :=
  match camera (this w) with
  | Some c => (update_this (set_camera (Some (f c))) w, Normal)
  | None => (w, Throw)
  end.

(** [scene.add(object)] *)
Definition scene_add (r : nat) (s : Scene) : Scene :=
  mkScene (background s) (scene_children s ++ [r]).

(** [scene.remove(object)]; an object is a child at most once. *)
Definition scene_remove (r : nat) (s : Scene) : Scene :=
  mkScene (background s) (List.filter (fun c => negb (Nat.eqb c r)) (scene_children s)).

Definition set_camera_position (p : Vector3) (c : PerspectiveCamera) : PerspectiveCamera :=
  mkCamera (fov c) (aspect c) p.

(** [camera.position.z = v] *)
Definition set_camera_z (v : number) (c : PerspectiveCamera) : PerspectiveCamera :=
  mkCamera (fov c) (aspect c)
           (mkVector3 (x (camera_position c)) (y (camera_position c)) v).

Definition dispatchEvent (e : CustomEvent) (w : World) : World :=
  set_dispatched (dispatched w ++ [e]) w.

(** [new THREE.Color(s)] or [null] for a transparent background. *)
Definition background_of (s : string) : option string :=
  if (String.eqb s "transparent" || String.eqb s EmptyString)%bool then None else Some s.

(** [Math.round] *)
Definition Math_round (a : number) : number :=
  match a with
  | Finite r => Finite (IZR (Int_part (r + / 2)))
  | other => other
  end.

(** ** The element *)

(** [constructor()]; [touch] is ["ontouchstart" in window]. *)
Definition constructor (attrs : gmap string string) (touch : bool) : Widget :=
  mkWidget attrs None None None None None (mkClock false 0)
           false (Finite 0.005) false
           touch 0 0 15 false false
           None None None None None.

(** A page with a newly created element, not yet connected. *)
Definition createElement (attrs : gmap string string) (touch : bool)
    (time containerWidth containerHeight : R) : World :=
  mkWorld (constructor attrs touch) [] [] 0 [] 0 [] [] 0 false
          time containerWidth containerHeight.

(** *** The render loop *)

(** [this.clock.getDelta()], in seconds; [now] counts milliseconds. *)
Definition getDelta (w : World) : R * World :=
  let c := clock (this w) in
  let w' := update_this (set_clock (mkClock true (now w))) w in
  if running c then ((now w - oldTime c) / 1000, w') else (0, w').

(** [animate()].  Of [animationMixer.update(delta)] the model keeps the
    time of the mixer; what the mixer writes into the objects it animates
    depends on the clips of the file and is not part of the model. *)
Definition animate (w : World) : World :=
  (* requestAnimationFrame(this.animate); *)
  let w := set_frames (S (frames w)) w in
  (* if (this.isAutoRotate && this.model) this.model.rotation.y += this.rotateSpeed; *)
  let w :=
    match isAutoRotate (this w), model (this w) with
    | true, Some m =>
        update_object m
          (fun o => set_rotation_y (nadd (rotation_y o) (rotateSpeed (this w))) o) w
    | _, _ => w
    end in
  (* if (this.animationMixer) this.animationMixer.update(this.clock.getDelta()); *)
  let w :=
    match animationMixer (this w) with
    | Some mixer =>
        let '(delta, w) := getDelta w in
        update_this
          (set_animationMixer
             (Some (mkMixer (mixer_root mixer) (playing mixer)
                            (nadd (mixer_time mixer) (Finite delta))))) w
    | None => w
    end in
  (* if (this.renderer && this.scene && this.camera) this.renderer.render(...); *)
  match renderer (this w), scene (this w), camera (this w) with
  | Some r, Some _, Some _ =>
      update_this
        (set_renderer (Some (mkRenderer (dispose_calls r) (S (render_calls r))))) w
  | _, _, _ => w
  end.

(** The browser reaches the next display refresh at time [t] and runs one
    queued callback, if there is one. *)
Definition tick (t : R) (w : World) : World :=
  match frames w with
  | O => w
  | S n => animate (set_now t (set_frames n w))
  end.

Fixpoint ticks (ts : list R) (w : World) : World :=
  match ts with
  | [] => w
  | t :: rest => ticks rest (tick t w)
  end.

(** *** [initScene()] *)

Definition initScene (w : World) : World :=
  let width := clientWidth w in
  let height := clientHeight w in
  (* this.scene = new THREE.Scene(); and its background *)
  let bg := match backgroundColor (this w) with
            | Some s => background_of s
            | None => None
            end in
  let w := update_this (set_scene (Some (mkScene bg []))) w in
  (* this.camera = new THREE.PerspectiveCamera(45, width / height, 0.1, 1000); *)
  let w := update_this
             (set_camera (Some (mkCamera (Finite 45)
                                         (ndiv (Finite width) (Finite height))
                                         (vec 0 0 3)))) w in
  (* this.renderer = new THREE.WebGLRenderer(...); *)
  let w := update_this (set_renderer (Some (mkRenderer 0 0))) w in
  (* the two lights *)
  let '(ambientLight, w) := alloc (plain_object (vec 0 0 0)) w in
  let w := update_this (fun t => set_scene (scene_add ambientLight <$> scene t) t) w in
  let '(directionalLight, w) := alloc (plain_object (vec (-3) 0 (-2))) w in
  let w := update_this (fun t => set_scene (scene_add directionalLight <$> scene t) t) w in
  (* this.isInitialized = true; this.animate(); *)
  let w := update_this (set_isInitialized true) w in
  animate w.

(** *** [loadModel(url)] and the callbacks it gives to the loader *)

(** Lines 504-508 and 637-641: the distance of the camera for a box of the
    given size. *)
Definition camera_distance (size : Vector3) (camera_fov : number) : number :=
  let maxDim := Math_max (x size) (y size) (z size) in
  let fov := nmul camera_fov (ndiv (Finite PI) (Finite 180)) in
  let cameraZ :=
    Math_abs (ndiv (ndiv maxDim (Finite 2)) (Math_tan (ndiv fov (Finite 2)))) in
  nmul cameraZ (Finite 1.5).

(** The success callback.  [box] is what
    [new THREE.Box3().setFromObject(this.model)] gives for the loaded and
    scaled model. *)
Definition onLoad (gltf : GLTF) (box : Box3) (w : World) : World * completion :=
  (* if (this.model) { this.scene.remove(this.model); } *)
  run w <- match model (this w) with
           | Some previous => with_scene (scene_remove previous) w
           | None => (w, Normal)
           end;
  (* this.model = gltf.scene; *)
  let '(m, w) := alloc (gltf_scene gltf) w in
  let w := update_this (set_model (Some m)) w in
  (* const scale = parseFloat(this.getAttribute("scale") || "1.0");
     this.model.scale.set(scale, scale, scale); *)
  let scale := parseFloat (or_default (attributes (this w) !! "scale") "1.0") in
  let w := update_object m (set_scale (mkVector3 scale scale scale)) w in
  (* this.scene.add(this.model); *)
  run w <- with_scene (scene_add m) w;
  (* this.model.position.sub(center); *)
  let center := getCenter box in
  let w := update_object m (fun o => set_position (vsub (position o) center) o) w in
  (* this.camera.position.z = cameraZ; *)
  let size := getSize box in
  run w <- with_camera (fun c => set_camera_z (camera_distance size (fov c)) c) w;
  (* if (gltf.animations && gltf.animations.length > 0) { ... } *)
  let w := match animations gltf with
           | animation :: _ =>
               update_this
                 (set_animationMixer (Some (mkMixer m [animation] (Finite 0)))) w
           | [] => w
           end in
  (* this.dispatchEvent(new CustomEvent("model-loaded", ...)); *)
  (dispatchEvent (mkCustomEvent "model-loaded" true true (DetailModel m)) w, Normal).

(** The progress callback. *)
Definition onProgress (loaded total : number) (w : World) : World :=
  let percentComplete := nmul (ndiv loaded total) (Finite 100) in
  set_console (console w ++ [LogProgress (Math_round percentComplete)]) w.

(** The error callback. *)
Definition onError (error : string) (w : World) : World :=
  (* console.error(..., error); *)
  let w := set_console (console w ++ [LogError error]) w in
  (* this.dispatchEvent(new CustomEvent("model-error", ...)); *)
  dispatchEvent (mkCustomEvent "model-error" true true (DetailError error)) w.

(** [loadModel(url)]: the request goes to the loader, which answers later. *)
Definition loadModel (url : string) (w : World) : World :=
  set_next_request (S (next_request w))
    (set_inflight (inflight w ++ [(next_request w, url)]) w).

(** What the loader answers. *)
Inductive LoaderResult : Type :=
| Loaded (gltf : GLTF) (box : Box3)
| Failed (error : string).

Definition is_inflight (request : nat) (w : World) : bool :=
  existsb (fun p => Nat.eqb (fst p) request) (inflight w).

(** The loader answers the request numbered [request]. *)
Definition complete (request : nat) (r : LoaderResult) (w : World)
  : World * completion :=
  if is_inflight request w then
    let w := set_inflight
               (List.filter (fun p => negb (Nat.eqb (fst p) request)) (inflight w)) w in
    match r with
    | Loaded gltf box => onLoad gltf box w
    | Failed error => (onError error w, Normal)
    end
  else (w, Normal).

(** *** Touch gestures *)

(** What a listener did to the event it was given. *)
Record Handled : Type := mkHandled {
  defaultPrevented : bool;
  propagationStopped : bool;
  outcome : completion
}.

Definition untouched : Handled := mkHandled false false Normal.

(** [handleHorizontalPan(deltaX)].  The last statement reads the ambient
    variable [event] ([window.event]), not a parameter: [event] is its value
    while the listener runs, [None] for [undefined]. *)
Definition handleHorizontalPan (event : option TouchEvent) (deltaX : R) (w : World)
  : World * completion :=
  (* if (!this.model) return; *)
  match model (this w) with
  | None => (w, Normal)
  | Some m =>
      let rotationSpeed := 0.01 in
      (* this.model.rotation.y += deltaX * rotationSpeed; *)
      let w := update_object m
                 (fun o => set_rotation_y
                             (nadd (rotation_y o) (Finite (deltaX * rotationSpeed))) o) w in
      (* this.touchStartX = event.touches[0].clientX; *)
      match event with
      | Some ev =>
          match touches ev with
          | first :: _ => (update_this (set_touchStartX (clientX first)) w, Normal)
          | [] => (w, Throw)
          end
      | None => (w, Throw)
      end
  end.

(** The [touchstart] listener. *)
Definition on_touchstart (e : TouchEvent) (w : World) : World :=
  match touches e with
  | [t] =>
      let w := update_this (set_touchStartX (clientX t)) w in
      let w := update_this (set_touchStartY (clientY t)) w in
      let w := update_this (set_isHorizontalPan false) w in
      update_this (set_touchMoveStarted false) w
  | _ => w
  end.

(** The [touchmove] listener, run while the ambient [event] is [event]. *)
Definition on_touchmove (event : option TouchEvent) (e : TouchEvent) (w : World)
  : World * Handled :=
  match touches e with
  | [t] =>
      let touchX := clientX t in
      let touchY := clientY t in
      let deltaX := Rabs (touchX - touchStartX (this w)) in
      let deltaY := Rabs (touchY - touchStartY (this w)) in
      let threshold := touchThreshold (this w) in
      if (negb (touchMoveStarted (this w))
          && (Rgtb deltaX threshold || Rgtb deltaY threshold))%bool
      then
        let w := update_this (set_touchMoveStarted true) w in
        if (Rgtb deltaX (deltaY * 2) && Rgtb deltaX threshold)%bool
        then
          let w := update_this (set_isHorizontalPan true) w in
          (* e.preventDefault(); e.stopPropagation(); *)
          let '(w, c) := handleHorizontalPan event (touchX - touchStartX (this w)) w in
          (w, mkHandled true true c)
        else
          (update_this (set_isHorizontalPan false) w, untouched)
      else if (touchMoveStarted (this w) && isHorizontalPan (this w))%bool
      then
        let '(w, c) := handleHorizontalPan event (touchX - touchStartX (this w)) w in
        (w, mkHandled true true c)
      else (w, untouched)
  | _ => (w, untouched)
  end.

(** The [touchend] and the [touchcancel] listener. *)
Definition on_touchend (w : World) : World :=
  let w := update_this (set_isHorizontalPan false) w in
  update_this (set_touchMoveStarted false) w.

Definition on_touchcancel (w : World) : World :=
  let w := update_this (set_isHorizontalPan false) w in
  update_this (set_touchMoveStarted false) w.

(** [setupTouchEvents()] *)
Definition setupTouchEvents (w : World) : World * completion :=
  if negb (isTouchDevice (this w)) then (w, Normal)
  else
    (* const canvas = this.renderer.domElement; *)
    match renderer (this w) with
    | Some _ => (set_touch_listeners true w, Normal)
    | None => (w, Throw)
    end.

(** A touch event reaching the canvas.  The canvas is appended to the
    container found in the shadow root of the element ([connectedCallback],
    [initScene]), and for a listener whose target is in a shadow tree
    [window.event] is [undefined]: the listeners registered by
    [setupTouchEvents] run with no ambient [event]. *)
Inductive TouchInput : Type :=
| TouchStart (e : TouchEvent)
| TouchMove (e : TouchEvent)
| TouchEnd
| TouchCancel.

Definition dispatchTouch (i : TouchInput) (w : World) : World * Handled :=
  if touch_listeners w then
    match i with
    | TouchStart e => (on_touchstart e w, untouched)
    | TouchMove e => on_touchmove None e w
    | TouchEnd => (on_touchend w, untouched)
    | TouchCancel => (on_touchcancel w, untouched)
    end
  else (w, untouched).

(** Runs of the [touchmove] listener, one after the other, each given with
    the ambient [event] it runs under. *)
Fixpoint moves (es : list (option TouchEvent * TouchEvent)) (w : World) : World :=
  match es with
  | [] => w
  | (event, e) :: rest => moves rest (fst (on_touchmove event e w))
  end.

(** The state of the gesture as the two flags encode it.  The flags do not
    tell an idle element from one that waits for the decision. *)
Inductive Phase : Type := IdleOrPending | ClaimedHorizontal | CededVertical.

Definition phase (w : World) : Phase :=
  if touchMoveStarted (this w)
  then (if isHorizontalPan (this w) then ClaimedHorizontal else CededVertical)
  else IdleOrPending.

(** *** Disposal *)

(** The function given to [traverse] in [disposeScene]: the calls of
    [dispose()] for one object. *)
Definition dispose_callback (object : Object3D) : list Resource :=
  (match geometry object with
   | Some g => [GeometryResource g]
   | None => []
   end)
  ++
  (match material object with
   | Some (ArrayMaterial ms) => List.map MaterialResource ms
   | Some (SingleMaterial m) => [MaterialResource m]
   | None => []
   end).

(** [object.traverse(callback)]: the object, then its descendants. *)
Fixpoint traverse (o : Object3D) : list Object3D :=
  o :: List.flat_map traverse (children o).

(** [disposeScene(scene)]; the scene object itself has neither geometry
    nor material. *)
Definition disposeScene (s : Scene) (w : World) : World :=
  let objects := List.flat_map traverse (omap (fun r => heap w !! r) (scene_children s)) in
  set_disposed (disposed w ++ List.flat_map dispose_callback objects) w.

(** *** The lifecycle callbacks *)

Definition getAttribute (name : string) (w : World) : option string :=
  attributes (this w) !! name.

Definition hasAttribute (name : string) (w : World) : bool :=
  match attributes (this w) !! name with Some _ => true | None => false end.

(** [connectedCallback()] *)
Definition connectedCallback (w : World) : World * completion :=
  let w := update_this
             (set_configuration
                (or_default (getAttribute "width" w) "100%")
                (or_default (getAttribute "height" w) "300px")
                (or_default (getAttribute "model-url" w) EmptyString)
                (or_default (getAttribute "background" w) "transparent")
                (hasAttribute "auto-rotate" w)
                (parseFloat (or_default (getAttribute "rotate-speed" w) "0.005"))
                (parseFloat (or_default (getAttribute "scale" w) "1.0"))) w in
  (* this.initScene(); *)
  let w := initScene w in
  (* if (this.modelUrl) { this.loadModel(this.modelUrl); } *)
  let w := match modelUrl (this w) with
           | Some (String _ _ as url) => loadModel url w
           | _ => w
           end in
  (* window.addEventListener("resize", this.onWindowResize.bind(this)); *)
  let w := set_resize_listeners (S (resize_listeners w)) w in
  (* this.setupTouchEvents(); *)
  setupTouchEvents w.

(** [disconnectedCallback()] *)
Definition disconnectedCallback (w : World) : World :=
  (* window.removeEventListener("resize", this.onWindowResize.bind(this)):
     the function given is a new one, so no listener is removed *)
  (* if (this.renderer) { this.renderer.dispose(); } *)
  let w := match renderer (this w) with
           | Some r =>
               update_this
                 (set_renderer (Some (mkRenderer (S (dispose_calls r)) (render_calls r)))) w
           | None => w
           end in
  (* if (this.scene) { this.disposeScene(this.scene); } *)
  match scene (this w) with
  | Some s => disposeScene s w
  | None => w
  end.

(** [attributeChangedCallback(name, oldValue, newValue)] *)
Definition attributeChangedCallback
    (name : string) (oldValue newValue : option string) (w : World) : World :=
  if negb (isInitialized (this w)) then w
  else if String.eqb name "model-url" then
    match newValue with
    | Some (String _ _ as url) =>
        if bool_decide (newValue = oldValue) then w else loadModel url w
    | _ => w
    end
  else if String.eqb name "background" then
    match scene (this w) with
    | Some s =>
        let bg := match newValue with
                  | Some v =>
                      if (String.eqb v "transparent" || String.eqb v EmptyString)%bool
                      then None else Some v
                  | None => Some "#000000"%string
                  end in
        update_this (set_scene (Some (mkScene bg (scene_children s)))) w
    | None => w
    end
  else if String.eqb name "auto-rotate" then
    update_this (set_isAutoRotate (hasAttribute "auto-rotate" w)) w
  else if String.eqb name "rotate-speed" then
    update_this (set_rotateSpeed (parseFloat (or_default newValue "0.005"))) w
  else if String.eqb name "scale" then
    let scale := parseFloat (or_default newValue "1.0") in
    match model (this w) with
    | Some m => update_object m (set_scale (mkVector3 scale scale scale)) w
    | None => w
    end
  else w.

(** The host changes an attribute of the element: the attribute is written,
    then the callback runs. *)
Definition setAttribute (name value : string) (w : World) : World :=
  let oldValue := getAttribute name w in
  let w := update_this (set_attributes (<[name := value]> (attributes (this w)))) w in
  if bool_decide (name ∈ ["model-url"; "background"; "auto-rotate"; "rotate-speed"; "scale"]%string)
  then attributeChangedCallback name oldValue (Some value) w
  else w.

(** [resetCamera()]; [box] is what [setFromObject] gives for the model, when
    there is one. *)
Definition resetCamera (box : Box3) (w : World) : World :=
  match camera (this w) with
  | None => w
  | Some c =>
      (* this.camera.position.set(0, 0, 5); *)
      let c := set_camera_position (vec 0 0 5) c in
      let c := match model (this w) with
               | Some _ => set_camera_z (camera_distance (getSize box) (fov c)) c
               | None => c
               end in
      update_this (set_camera (Some c)) w
  end.

(** ** Worlds used as examples *)

Local Open Scope nat_scope.

Definition installed (w : World) : option Object3D :=
  match model (this w) with
  | Some m => heap w !! m
  | None => None
  end.

(** What an object has from the file it was loaded from: its own geometry
    and material and its descendants, whatever its transform. *)
Definition asset (o : Object3D) : option nat * option Material * list Object3D :=
  (geometry o, material o, children o).

(** The object that [onLoad] makes of the scene of a GLTF. *)
Definition placed (gltf : GLTF) (box : Box3) (w : World) : Object3D :=
  let scale := parseFloat (or_default (attributes (this w) !! "scale") "1.0") in
  set_position (vsub (position (gltf_scene gltf)) (getCenter box))
    (set_scale (mkVector3 scale scale scale) (gltf_scene gltf)).

(** A mesh with one geometry and one material. *)
Definition mesh (g m : nat) : Object3D :=
  mkObject3D (Some g) (Some (SingleMaterial m)) [] (vec 0 0 0) (Finite 0) (vec 1 1 1).

(** A group holding a mesh and a mesh with two materials. *)
Definition modelA : GLTF :=
  mkGLTF (mkObject3D None None
            [mesh 10 11;
             mkObject3D (Some 12) (Some (ArrayMaterial [13; 14])) []
                        (vec 0 0 0) (Finite 0) (vec 1 1 1)]
            (vec 0 0 0) (Finite 0) (vec 1 1 1))
         [].

Definition modelB : GLTF := mkGLTF (mesh 20 21) ["walk"%string].

Definition box222 : Box3 := mkBox3 (vec (-1) (-1) (-1)) (vec 1 1 1).

(** An element without attributes, connected. *)
Definition idle : World := fst (connectedCallback (createElement ∅ true 0 400 300)).

(** An element on a touch device, with a model to load. *)
Definition page : World :=
  createElement {[ "model-url"%string := "a.glb"%string ]} true 0 400 300.

Definition connected : World := fst (connectedCallback page).

(** The model has arrived. *)
Definition loaded : World := fst (complete 0 (Loaded modelA box222) connected).

(** The host asks for another model before the first has arrived; the
    second arrives first, the first after it. *)
Definition overlapping : World := setAttribute "model-url" "b.glb" connected.

Definition afterB : World := fst (complete 1 (Loaded modelB box222) overlapping).

Definition afterA : World := fst (complete 0 (Loaded modelA box222) afterB).

(** With the first model installed, the host asks for a second one, which
    arrives. *)
Definition reloaded : World :=
  fst (complete 1 (Loaded modelB box222) (setAttribute "model-url" "b.glb" loaded)).

(** With the first model installed, the host asks for another one; the
    request is still open. *)
Definition loaded_pending : World := setAttribute "model-url" "missing.glb" loaded.

(** A file without any geometry, whose box is the empty one. *)
Definition emptyModel : GLTF := mkGLTF (plain_object (vec 0 0 0)) [].

Definition loadedEmpty : World := fst (complete 0 (Loaded emptyModel empty_box) connected).

(** The Z coordinate of the camera. *)
Definition camera_z (w : World) : option number :=
  match camera (this w) with
  | Some c => Some (z (camera_position c))
  | None => None
  end.

(** An element whose numeric attributes are not numbers. *)
Definition misconfigured : World :=
  createElement {[ "rotate-speed"%string := "fast"%string; "scale"%string := "big"%string ]}
                true 0 400 300.

(** How often the renderer has drawn. *)
Definition renders (w : World) : nat :=
  match renderer (this w) with
  | Some r => render_calls r
  | None => 0
  end.

(** A finger has been put down at (100, 100). *)
Definition touched : World :=
  fst (dispatchTouch (TouchStart (mkTouchEvent [mkTouch 100 100])) loaded).

(** The gesture after a move to (116, 112), which cedes it, and after a move
    to (120, 105), which claims it: the model has turned, and the reference
    X is still that of the touch start. *)
Definition ceded : World :=
  update_this (set_isHorizontalPan false)
    (update_this (set_touchMoveStarted true) touched).

Definition claimed : World :=
  update_object 2
    (fun o => set_rotation_y (nadd (rotation_y o) (Finite ((120 - 100) * 0.01))) o)
    (update_this (set_isHorizontalPan true)
       (update_this (set_touchMoveStarted true) touched)).

Local Open Scope R_scope.

(** ** Further definitions *)

(** [onWindowResize()].  The second component is the size given to
    [renderer.setSize], when it is called. *)
Definition onWindowResize (w : World) : World * option (R * R) :=
  match camera (this w), renderer (this w) with
  | Some c, Some _ =>
      let width := clientWidth w in
      let height := clientHeight w in
      (* this.camera.aspect = width / height; *)
      (update_this
         (set_camera (Some (mkCamera (fov c) (ndiv (Finite width) (Finite height))
                                     (camera_position c)))) w,
       (* this.renderer.setSize(width, height); *)
       Some (width, height))
  | _, _ => (w, None)
  end.

(** The layout gives the container another size. *)
Definition resizeContainer (width height : R) (w : World) : World :=
  mkWorld (this w) (heap w) (disposed w) (frames w) (inflight w) (next_request w)
          (dispatched w) (console w) (resize_listeners w) (touch_listeners w)
          (now w) width height.

(** [d] is [o] or is reached from [o] through [children]. *)
Inductive descendant : Object3D -> Object3D -> Prop :=
| descendant_self (o : Object3D) : descendant o o
| descendant_child (d c o : Object3D) :
    In c (children o) -> descendant d c -> descendant d o.

(** [r] is the geometry of [o], its material, or one of its materials. *)
Definition owns (o : Object3D) (r : Resource) : Prop :=
  match r with
  | GeometryResource g => geometry o = Some g
  | MaterialResource m =>
      material o = Some (SingleMaterial m)
      \/ exists ms, material o = Some (ArrayMaterial ms) /\ In m ms
  end.

(** The objects that are children of the scene. *)
Definition scene_objects (w : World) : list Object3D :=
  match scene (this w) with
  | Some s => omap (fun r => heap w !! r) (scene_children s)
  | None => []
  end.

(** The answers of the loader to a series of requests, one after the
    other. *)
Fixpoint loads (answers : list (GLTF * Box3)) (w : World) : World :=
  match answers with
  | [] => w
  | (gltf, box) :: rest => loads rest (fst (onLoad gltf box w))
  end.

(** The inputs of a gesture, one after the other. *)
Fixpoint gesture (inputs : list TouchInput) (w : World) : World :=
  match inputs with
  | [] => w
  | i :: rest => gesture rest (fst (dispatchTouch i w))
  end.

(** The sum of the offsets of the samples [xs] from the reference [x0]. *)
Fixpoint sum_of_offsets (x0 : R) (xs : list R) : R :=
  match xs with
  | [] => 0
  | x :: rest => (x - x0) + sum_of_offsets x0 rest
  end.

(** A box of size (4, 2, 2). *)
Definition box424 : Box3 := mkBox3 (vec (-2) (-1) (-1)) (vec 2 1 1).

(** An element without a model on which a gesture was claimed. *)
Definition claimed_unloaded : World :=
  update_this (set_isHorizontalPan true)
    (update_this (set_touchMoveStarted true)
       (on_touchstart (mkTouchEvent [mkTouch 100 100]) idle)).

(** An element that turns its model by itself, the model installed. *)
Definition spinning : World :=
  fst (complete 0 (Loaded modelA box222)
         (fst (connectedCallback
                 (createElement {[ "model-url"%string := "a.glb"%string;
                                   "auto-rotate"%string := "false"%string ]}
                                true 0 400 300)))).

(** An element on a device without touch input. *)
Definition desktop : World := createElement ∅ false 0 400 300.

(** The scene holds its other children and the model, nothing else; all
    references are in the heap. *)
Definition one_model (base : list nat) (w : World) : Prop :=
  (exists s c, scene (this w) = Some s /\ camera (this w) = Some c
               /\ scene_children s
                  = base ++ match model (this w) with Some m => [m] | None => [] end)
  /\ (forall r, In r base -> (r < length (heap w))%nat)
  /\ (forall m, model (this w) = Some m -> (m < length (heap w))%nat /\ ~ In m base).

(** Induction on an object with the property at hand for its children. *)
Fixpoint Object3D_induction (P : Object3D -> Prop)
    (step : forall o, Forall P (children o) -> P o) (o : Object3D) : P o :=
  match o as o0 return (Forall P (children o0) -> P o0) -> P o0 with
  | mkObject3D g m cs p r s =>
      fun k =>
        k ((fix all (l : list Object3D) : Forall P l :=
              match l with
              | [] => @List.Forall_nil _ P
              | c :: rest =>
                  @List.Forall_cons _ P c rest (Object3D_induction P step c) (all rest)
              end) cs)
  end (step o).

(** An element that turns its model by itself at a speed that is not a
    number, the model installed. *)
Definition dizzy : World :=
  fst (complete 0 (Loaded modelA box222)
         (fst (connectedCallback
                 (createElement {[ "model-url"%string := "a.glb"%string;
                                   "auto-rotate"%string := "auto-rotate"%string;
                                   "rotate-speed"%string := "fast"%string ]}
                                true 0 400 300)))).

(** * Properties *)

(** Case analysis on the fields of a world, before anything is computed. *)
Ltac destruct_world w :=
  let t := fresh "t" in
  let k := fresh "k" in
  destruct w as [t ? ? ? ? ? ? ? ? ? ? ? ?];
  destruct t as [? ? ? ? ? ? k ? ? ? ? ? ? ? ? ? ? ? ? ? ?];
  destruct k as [? ?].

Ltac case_matches :=
  repeat match goal with
         | |- context [match ?x with _ => _ end] => is_var x; destruct x; simpl
         end.

(** ** Numbers *)

Lemma Rgtb_true (a b : R) : a > b -> Rgtb a b = true.
Proof. intros H. unfold Rgtb. destruct (Rgt_dec a b); [reflexivity | contradiction]. Qed.

Lemma Rgtb_false (a b : R) : ~ a > b -> Rgtb a b = false.
Proof. intros H. unfold Rgtb. destruct (Rgt_dec a b); [contradiction | reflexivity]. Qed.

Lemma Rgtb_spec (a b : R) : Rgtb a b = true <-> a > b.
Proof.
  unfold Rgtb. destruct (Rgt_dec a b); split; intros; try reflexivity;
    try assumption; try discriminate; contradiction.
Qed.

Lemma Rltb_false (a b : R) : ~ a < b -> Rltb a b = false.
Proof. intros H. unfold Rltb. destruct (Rlt_dec a b); [contradiction | reflexivity]. Qed.

Lemma Rltb_true (a b : R) : a < b -> Rltb a b = true.
Proof. intros H. unfold Rltb. destruct (Rlt_dec a b); [reflexivity | contradiction]. Qed.

Lemma Reqb_false (a b : R) : a <> b -> Reqb a b = false.
Proof. intros H. unfold Reqb. destruct (Req_dec_T a b); [contradiction | reflexivity]. Qed.

Lemma Reqb_true (a b : R) : a = b -> Reqb a b = true.
Proof. intros H. unfold Reqb. destruct (Req_dec_T a b); [reflexivity | contradiction]. Qed.

Lemma ndiv_finite (a b : R) : b <> 0 -> ndiv (Finite a) (Finite b) = Finite (a / b).
Proof. intros H. unfold ndiv. rewrite (Reqb_false b 0 H). reflexivity. Qed.

Lemma parseFloat_default_rotate_speed : parseFloat "0.005" = Finite 0.005.
Proof.
  unfold parseFloat.
  replace (parse_decimal "0.005") with (PDecimal 5 (-3)) by reflexivity.
  simpl. f_equal. lra.
Qed.

Lemma parseFloat_default_scale : parseFloat "1.0" = Finite 1.
Proof.
  unfold parseFloat.
  replace (parse_decimal "1.0") with (PDecimal 10 (-1)) by reflexivity.
  simpl. f_equal. lra.
Qed.

Example parse_examples :
  parse_decimal "0.005" = PDecimal 5 (-3) /\
  parse_decimal "1.0" = PDecimal 10 (-1) /\
  parse_decimal "  -12.5e2px" = PDecimal (-125) 1 /\
  parse_decimal ".5" = PDecimal 5 (-1) /\
  parse_decimal "abc" = PNaN /\
  parse_decimal "." = PNaN /\
  parse_decimal "-Infinity" = PInfinity true.
Proof. repeat split; reflexivity. Qed.

(** ** The example worlds *)

Lemma connected_this_model : model (this connected) = None.
Proof. reflexivity. Qed.

Lemma loaded_model : model (this loaded) = Some 2%nat.
Proof. reflexivity. Qed.

(** ** Touch gestures *)

Lemma handleHorizontalPan_flags (w : World) (event : option TouchEvent) (deltaX : R) :
  let w' := fst (handleHorizontalPan event deltaX w) in
  touchMoveStarted (this w') = touchMoveStarted (this w)
  /\ isHorizontalPan (this w') = isHorizontalPan (this w)
  /\ touchStartY (this w') = touchStartY (this w)
  /\ touchThreshold (this w') = touchThreshold (this w)
  /\ model (this w') = model (this w).
Proof.
  unfold handleHorizontalPan.
  destruct (model (this w)) as [m|] eqn:Hm; simpl; [|by rewrite Hm].
  destruct event as [[[|first rest]]|]; simpl; by rewrite Hm.
Qed.

Lemma handleHorizontalPan_phase (w : World) (event : option TouchEvent) (deltaX : R) :
  phase (fst (handleHorizontalPan event deltaX w)) = phase w.
Proof.
  destruct (handleHorizontalPan_flags w event deltaX) as (Hs & Hp & _).
  unfold phase. by rewrite Hs, Hp.
Qed.

Section Gesture.

Variable w : World.

(** A move of a gesture that was ceded changes nothing. *)
Lemma ceded_move_is_noop (event : option TouchEvent) (e : TouchEvent) :
  phase w = CededVertical -> on_touchmove event e w = (w, untouched).
Proof.
  unfold phase, on_touchmove. intros H.
  destruct (touchMoveStarted (this w)); [|discriminate].
  destruct (isHorizontalPan (this w)); [discriminate|].
  destruct (touches e) as [|t [|]]; reflexivity.
Qed.

(** A one-finger move of a gesture that was claimed is handed to
    [handleHorizontalPan], after the default action is prevented. *)
Lemma claimed_move_pans (event : option TouchEvent) (t : Touch) :
  phase w = ClaimedHorizontal ->
  on_touchmove event (mkTouchEvent [t]) w =
    (fst (handleHorizontalPan event (clientX t - touchStartX (this w)) w),
     mkHandled true true
       (snd (handleHorizontalPan event (clientX t - touchStartX (this w)) w))).
Proof.
  unfold phase, on_touchmove. intros H. simpl.
  destruct (touchMoveStarted (this w)); [|discriminate].
  destruct (isHorizontalPan (this w)); [|discriminate].
  simpl. by destruct (handleHorizontalPan _ _ w).
Qed.

Lemma decided_move_keeps_phase (event : option TouchEvent) (e : TouchEvent) :
  phase w <> IdleOrPending -> phase (fst (on_touchmove event e w)) = phase w.
Proof.
  intros H. destruct (phase w) eqn:Hp; [done | |].
  - destruct (touches e) as [|t [|t' rest]] eqn:He;
      try (unfold on_touchmove; by rewrite He).
    destruct e as [ts]. simpl in He. subst ts.
    rewrite claimed_move_pans by done. simpl.
    by rewrite handleHorizontalPan_phase.
  - by rewrite ceded_move_is_noop.
Qed.

(** The deciding move: the first one-finger sample beyond the threshold. *)
Lemma deciding_move (event : option TouchEvent) (t : Touch) :
  let deltaX := Rabs (clientX t - touchStartX (this w)) in
  let deltaY := Rabs (clientY t - touchStartY (this w)) in
  let threshold := touchThreshold (this w) in
  touchMoveStarted (this w) = false ->
  deltaX > threshold \/ deltaY > threshold ->
  phase (fst (on_touchmove event (mkTouchEvent [t]) w)) =
    if (Rgtb deltaX (deltaY * 2) && Rgtb deltaX threshold)%bool
    then ClaimedHorizontal else CededVertical.
Proof.
  intros deltaX deltaY threshold Hs Hd.
  unfold on_touchmove. simpl. rewrite Hs. simpl.
  fold deltaX deltaY threshold.
  assert (Rgtb deltaX threshold || Rgtb deltaY threshold = true)%bool as ->.
  { destruct Hd as [Hd|Hd]; rewrite (Rgtb_true _ _ Hd); [done|].
    by destruct (Rgtb deltaX threshold). }
  destruct (Rgtb deltaX (deltaY * 2) && Rgtb deltaX threshold)%bool; [|done].
  match goal with
  | |- context [handleHorizontalPan ?ev ?d ?w0] =>
      pose proof (handleHorizontalPan_phase w0 ev d) as Hph;
      destruct (handleHorizontalPan ev d w0)
  end.
  simpl in *. by rewrite Hph.
Qed.

End Gesture.

(** What a claimed one-finger move does when a model is installed: with an
    ambient [event] that has touches, and with none. *)
Lemma claimed_move_with_model (w : World) (t : Touch) (m : nat) :
  phase w = ClaimedHorizontal ->
  model (this w) = Some m ->
  on_touchmove (Some (mkTouchEvent [t])) (mkTouchEvent [t]) w =
    (update_this (set_touchStartX (clientX t))
       (update_object m
          (fun o => set_rotation_y
                      (nadd (rotation_y o)
                            (Finite ((clientX t - touchStartX (this w)) * 0.01))) o) w),
     mkHandled true true Normal).
Proof.
  intros Hp Hm. rewrite claimed_move_pans by done.
  unfold handleHorizontalPan. rewrite Hm. reflexivity.
Qed.

Lemma claimed_move_undefined_event (w : World) (t : Touch) (m : nat) :
  phase w = ClaimedHorizontal ->
  model (this w) = Some m ->
  on_touchmove None (mkTouchEvent [t]) w =
    (update_object m
       (fun o => set_rotation_y
                   (nadd (rotation_y o)
                         (Finite ((clientX t - touchStartX (this w)) * 0.01))) o) w,
     mkHandled true true Throw).
Proof.
  intros Hp Hm. rewrite claimed_move_pans by done.
  unfold handleHorizontalPan. by rewrite Hm.
Qed.

(** [handleHorizontalPan] turns the installed model, whatever the ambient
    [event]. *)
Lemma handleHorizontalPan_turns
    (w : World) (event : option TouchEvent) (deltaX : R) (m : nat) :
  model (this w) = Some m ->
  heap (fst (handleHorizontalPan event deltaX w)) =
    alter (fun o => set_rotation_y (nadd (rotation_y o) (Finite (deltaX * 0.01))) o)
          m (heap w).
Proof.
  intros Hm. unfold handleHorizontalPan. rewrite Hm.
  destruct event as [[[|first rest]]|]; reflexivity.
Qed.

Lemma handleHorizontalPan_undefined_event (w : World) (deltaX : R) (m : nat) :
  model (this w) = Some m ->
  handleHorizontalPan None deltaX w =
    (update_object m
       (fun o => set_rotation_y (nadd (rotation_y o) (Finite (deltaX * 0.01))) o) w,
     Throw).
Proof. intros Hm. unfold handleHorizontalPan. by rewrite Hm. Qed.

Lemma handleHorizontalPan_with_model (w : World) (e : TouchEvent) (t : Touch)
    (rest : list Touch) (deltaX : R) (m : nat) :
  model (this w) = Some m ->
  touches e = t :: rest ->
  handleHorizontalPan (Some e) deltaX w =
    (update_this (set_touchStartX (clientX t))
       (update_object m
          (fun o => set_rotation_y (nadd (rotation_y o) (Finite (deltaX * 0.01))) o) w),
     Normal).
Proof. intros Hm He. unfold handleHorizontalPan. by rewrite Hm, He. Qed.

(** The deciding move when it claims the gesture. *)
Lemma deciding_move_claims (w : World) (event : option TouchEvent) (t : Touch) :
  let deltaX := Rabs (clientX t - touchStartX (this w)) in
  let deltaY := Rabs (clientY t - touchStartY (this w)) in
  let w0 := update_this (set_isHorizontalPan true)
              (update_this (set_touchMoveStarted true) w) in
  touchMoveStarted (this w) = false ->
  deltaX > deltaY * 2 ->
  deltaX > touchThreshold (this w) ->
  on_touchmove event (mkTouchEvent [t]) w =
    (fst (handleHorizontalPan event (clientX t - touchStartX (this w)) w0),
     mkHandled true true
       (snd (handleHorizontalPan event (clientX t - touchStartX (this w)) w0))).
Proof.
  intros deltaX deltaY w0 Hs H2 Ht.
  unfold on_touchmove. simpl touches. cbv iota. rewrite Hs.
  fold deltaX deltaY.
  rewrite (Rgtb_true _ _ H2), (Rgtb_true _ _ Ht). simpl.
  fold w0. by destruct (handleHorizontalPan _ _ w0).
Qed.

Lemma touched_facts :
  touchMoveStarted (this touched) = false
  /\ touchStartX (this touched) = 100
  /\ touchStartY (this touched) = 100
  /\ touchThreshold (this touched) = 15
  /\ model (this touched) = Some 2%nat.
Proof. repeat split; reflexivity. Qed.

(** C5: the first one-finger move that brings [deltaX] or [deltaY] above the
    threshold of 15 pixels claims the gesture for horizontal rotation exactly
    when [deltaX > 2 * deltaY] and [deltaX > 15], and cedes it to vertical
    scrolling otherwise. *)
Theorem first_move_beyond_threshold_decides
    (w : World) (event : option TouchEvent) (t : Touch) :
  let deltaX := Rabs (clientX t - touchStartX (this w)) in
  let deltaY := Rabs (clientY t - touchStartY (this w)) in
  let w' := fst (on_touchmove event (mkTouchEvent [t]) w) in
  touchThreshold (this w) = 15 ->
  touchMoveStarted (this w) = false ->
  deltaX > 15 \/ deltaY > 15 ->
  (phase w' = ClaimedHorizontal <-> deltaX > 2 * deltaY /\ deltaX > 15)
  /\ (phase w' = CededVertical <-> ~ (deltaX > 2 * deltaY /\ deltaX > 15)).
Proof.
  intros deltaX deltaY w' Hthr Hs Hd. subst w'.
  rewrite deciding_move by (rewrite ?Hthr; done).
  fold deltaX deltaY. rewrite Hthr.
  destruct (Rgt_dec deltaX (deltaY * 2)) as [H2|H2];
    destruct (Rgt_dec deltaX 15) as [H15|H15];
    rewrite ?(Rgtb_true _ _ H2), ?(Rgtb_false _ _ H2),
            ?(Rgtb_true _ _ H15), ?(Rgtb_false _ _ H15); simpl;
    (split; split; intros H; try discriminate; try reflexivity;
     try (split; lra); try (destruct H; lra); try (intros [? ?]; lra);
     try (exfalso; apply H; split; lra)).
Qed.

(** With the finger down at (100, 100): a move to (120, 105), where
    [deltaX = 20] and [deltaY = 5], claims the gesture; a move to (116, 112),
    where [deltaX = 16] and [deltaY = 12], cedes it. *)
Lemma first_move_beyond_threshold_decides_witness :
  phase (fst (on_touchmove None (mkTouchEvent [mkTouch 120 105]) touched))
    = ClaimedHorizontal
  /\ phase (fst (on_touchmove None (mkTouchEvent [mkTouch 116 112]) touched))
    = CededVertical.
Proof.
  destruct touched_facts as (Hs & Hx & Hy & Hthr & _).
  split.
  - destruct (first_move_beyond_threshold_decides touched None (mkTouch 120 105)
                Hthr Hs) as [[_ H] _].
    + left. rewrite Hx. simpl clientX. rewrite Rabs_pos_eq; lra.
    + apply H. rewrite Hx, Hy. simpl clientX; simpl clientY.
      rewrite !Rabs_pos_eq; lra.
  - destruct (first_move_beyond_threshold_decides touched None (mkTouch 116 112)
                Hthr Hs) as [_ [_ H]].
    + left. rewrite Hx. simpl clientX. rewrite Rabs_pos_eq; lra.
    + apply H. rewrite Hx, Hy. simpl clientX; simpl clientY.
      rewrite !Rabs_pos_eq by lra. lra.
Defined.

(** The deciding move when it cedes the gesture. *)
Lemma deciding_move_cedes (w : World) (event : option TouchEvent) (t : Touch) :
  let deltaX := Rabs (clientX t - touchStartX (this w)) in
  let deltaY := Rabs (clientY t - touchStartY (this w)) in
  touchMoveStarted (this w) = false ->
  deltaX > touchThreshold (this w) \/ deltaY > touchThreshold (this w) ->
  ~ (deltaX > deltaY * 2 /\ deltaX > touchThreshold (this w)) ->
  on_touchmove event (mkTouchEvent [t]) w =
    (update_this (set_isHorizontalPan false)
       (update_this (set_touchMoveStarted true) w), untouched).
Proof.
  intros deltaX deltaY Hs Hd Hn.
  unfold on_touchmove. simpl touches. cbv iota. rewrite Hs.
  fold deltaX deltaY.
  assert (Rgtb deltaX (touchThreshold (this w))
          || Rgtb deltaY (touchThreshold (this w)) = true)%bool as ->.
  { destruct Hd as [Hd|Hd]; rewrite (Rgtb_true _ _ Hd); [done|].
    by destruct (Rgtb deltaX _). }
  assert (Rgtb deltaX (deltaY * 2)
          && Rgtb deltaX (touchThreshold (this w)) = false)%bool as ->; [|done].
  destruct (Rgt_dec deltaX (deltaY * 2)) as [H2|H2];
    [|by rewrite (Rgtb_false _ _ H2)].
  destruct (Rgt_dec deltaX (touchThreshold (this w))) as [Ht|Ht];
    [tauto|].
  rewrite (Rgtb_false _ _ Ht). by destruct (Rgtb deltaX _).
Qed.

(** The two example gestures are what the listeners make of the moves. *)
Lemma ceded_world :
  dispatchTouch (TouchMove (mkTouchEvent [mkTouch 116 112])) touched
    = (ceded, untouched).
Proof.
  destruct touched_facts as (Hs & Hx & Hy & Hthr & _).
  change (dispatchTouch (TouchMove ?e) touched) with (on_touchmove None e touched).
  rewrite deciding_move_cedes.
  - reflexivity.
  - exact Hs.
  - left. rewrite Hx, Hthr. simpl clientX. rewrite Rabs_pos_eq by lra. lra.
  - rewrite Hx, Hy, Hthr. simpl clientX; simpl clientY.
    rewrite !Rabs_pos_eq by lra. lra.
Qed.

Lemma claimed_world :
  dispatchTouch (TouchMove (mkTouchEvent [mkTouch 120 105])) touched
    = (claimed, mkHandled true true Throw).
Proof.
  destruct touched_facts as (Hs & Hx & Hy & Hthr & Hm).
  change (dispatchTouch (TouchMove ?e) touched) with (on_touchmove None e touched).
  rewrite deciding_move_claims.
  - rewrite Hx. simpl clientX.
    rewrite (handleHorizontalPan_undefined_event _ _ 2%nat); reflexivity.
  - exact Hs.
  - rewrite Hx, Hy. simpl clientX; simpl clientY. rewrite !Rabs_pos_eq by lra. lra.
  - rewrite Hx, Hthr. simpl clientX. rewrite Rabs_pos_eq by lra. lra.
Qed.

Lemma claimed_facts :
  touch_listeners claimed = true
  /\ phase claimed = ClaimedHorizontal
  /\ model (this claimed) = Some 2%nat
  /\ touchStartX (this claimed) = 100
  /\ rotation_y <$> installed claimed = Some (Finite (0 + (120 - 100) * 0.01)).
Proof. repeat split; reflexivity. Qed.

Lemma moves_of_ceded (es : list (option TouchEvent * TouchEvent)) (w : World) :
  phase w = CededVertical -> moves es w = w.
Proof.
  intros H. induction es as [|[event e] es IH]; [done|].
  simpl. by rewrite ceded_move_is_noop.
Qed.

Lemma moves_keep_phase (es : list (option TouchEvent * TouchEvent)) (w : World) :
  phase w <> IdleOrPending -> phase (moves es w) = phase w.
Proof.
  revert w. induction es as [|[event e] es IH]; intros w H; [done|].
  simpl. rewrite IH; rewrite decided_move_keeps_phase; done.
Qed.

(** C4: once the gesture is decided, no run of the [touchmove] listener
    changes the decision, whatever the events and whatever the ambient
    [event] they run under.  Every later move of a ceded gesture leaves the
    world as it is and does not touch the event.  Every later one-finger
    move of a claimed gesture goes to [handleHorizontalPan] after preventing
    the default action; with a model installed it turns that model about Y
    by 0.01 times the offset of the finger from the reference X, changes no
    other object, and leaves the gesture claimed.  The end or the
    cancellation of the touch resets the flags. *)
Theorem decision_is_sticky (w : World) (es : list (option TouchEvent * TouchEvent)) :
  phase w <> IdleOrPending ->
  phase (moves es w) = phase w
  /\ (phase w = CededVertical ->
      moves es w = w
      /\ forall event e, on_touchmove event e w = (w, untouched))
  /\ (phase w = ClaimedHorizontal ->
      forall event t,
        on_touchmove event (mkTouchEvent [t]) (moves es w) =
          (fst (handleHorizontalPan event (clientX t - touchStartX (this (moves es w)))
                  (moves es w)),
           mkHandled true true
             (snd (handleHorizontalPan event
                     (clientX t - touchStartX (this (moves es w))) (moves es w)))))
  /\ (phase w = ClaimedHorizontal ->
      forall event t m,
        model (this (moves es w)) = Some m ->
        let before := moves es w in
        let after := on_touchmove event (mkTouchEvent [t]) before in
        defaultPrevented (snd after) = true
        /\ propagationStopped (snd after) = true
        /\ heap (fst after) =
             alter (fun o => set_rotation_y
                               (nadd (rotation_y o)
                                     (Finite ((clientX t - touchStartX (this before))
                                              * 0.01))) o)
                   m (heap before)
        /\ phase (fst after) = ClaimedHorizontal)
  /\ phase (on_touchend (moves es w)) = IdleOrPending
  /\ phase (on_touchcancel (moves es w)) = IdleOrPending.
Proof.
  intros H.
  assert (Hk : phase (moves es w) = phase w) by (by apply moves_keep_phase).
  split; [exact Hk|].
  split.
  { intros Hc. split; [by apply moves_of_ceded|].
    intros event e. by apply ceded_move_is_noop. }
  split.
  { intros Hc event t. apply claimed_move_pans. by rewrite Hk. }
  split; [|split; reflexivity].
  intros Hc event t m Hm before after. subst after before.
  rewrite claimed_move_pans by (by rewrite Hk).
  cbn [fst snd defaultPrevented propagationStopped].
  split; [reflexivity|]. split; [reflexivity|]. split.
  - by apply handleHorizontalPan_turns.
  - by rewrite handleHorizontalPan_phase, Hk.
Qed.

(** A ceded gesture whose finger goes far sideways stays as it is; a claimed
    gesture, after a move to x = 130, turns the model at the move to
    x = 140. *)
Lemma decision_is_sticky_witness :
  moves [(None, mkTouchEvent [mkTouch 160 112]); (None, mkTouchEvent [mkTouch 200 112])]
        ceded = ceded
  /\ defaultPrevented
       (snd (on_touchmove None (mkTouchEvent [mkTouch 140 105])
               (moves [(None, mkTouchEvent [mkTouch 130 105])] claimed))) = true
  /\ heap (fst (on_touchmove None (mkTouchEvent [mkTouch 140 105])
                  (moves [(None, mkTouchEvent [mkTouch 130 105])] claimed))) =
       alter (fun o => set_rotation_y
                         (nadd (rotation_y o)
                               (Finite ((clientX (mkTouch 140 105)
                                         - touchStartX
                                             (this (moves [(None, mkTouchEvent [mkTouch 130 105])]
                                                          claimed)))
                                        * 0.01))) o)
             2%nat (heap (moves [(None, mkTouchEvent [mkTouch 130 105])] claimed)).
Proof.
  assert (Hc : phase ceded <> IdleOrPending) by discriminate.
  assert (Hh : phase claimed <> IdleOrPending) by discriminate.
  assert (Hm : model (this (moves [(None, mkTouchEvent [mkTouch 130 105])] claimed))
               = Some 2%nat) by reflexivity.
  split.
  - exact (proj1 (proj1 (proj2 (decision_is_sticky ceded
                                  [(None, mkTouchEvent [mkTouch 160 112]);
                                   (None, mkTouchEvent [mkTouch 200 112])] Hc))
                        eq_refl)).
  - pose proof (proj1 (proj2 (proj2 (proj2 (decision_is_sticky claimed
                                              [(None, mkTouchEvent [mkTouch 130 105])] Hh))))
                      eq_refl None (mkTouch 140 105) 2%nat Hm) as H.
    exact (conj (proj1 H) (proj1 (proj2 (proj2 H)))).
Defined.

(** The element of the example after a second move, to x = 130. *)
Lemma claimed_second_move :
  dispatchTouch (TouchMove (mkTouchEvent [mkTouch 130 105])) claimed =
    (update_object 2%nat
       (fun o => set_rotation_y (nadd (rotation_y o) (Finite ((130 - 100) * 0.01))) o)
       claimed,
     mkHandled true true Throw).
Proof.
  destruct claimed_facts as (Hl & Hp & Hm & Hx & Hr).
  unfold dispatchTouch. rewrite Hl.
  rewrite (claimed_move_undefined_event claimed (mkTouch 130 105) 2%nat Hp Hm).
  rewrite Hx. reflexivity.
Qed.

Lemma claimed_second_move_facts :
  touchStartX
    (this (update_object 2%nat
             (fun o => set_rotation_y (nadd (rotation_y o) (Finite ((130 - 100) * 0.01))) o)
             claimed)) = 100
  /\ rotation_y <$> installed
       (update_object 2%nat
          (fun o => set_rotation_y (nadd (rotation_y o) (Finite ((130 - 100) * 0.01))) o)
          claimed)
     = Some (Finite (0 + (120 - 100) * 0.01 + (130 - 100) * 0.01)).
Proof. split; reflexivity. Qed.

(** C7 (the code departs from it): the finger is put down at x = 100 on the
    element with its model loaded, moves to x = 120, which claims the
    gesture, and then to x = 130.  Each of the two moves prevents the
    default action and turns the model, and then [handleHorizontalPan]
    throws at the assignment of the reference X, which reads an ambient
    [event] that is [undefined]: the reference X is 100 after both moves,
    never the current X.  The second move therefore turns the model by
    [(130 - 100) * 0.01], its offset from the start of the gesture, and not
    by [(130 - 120) * 0.01], its offset from the previous sample. *)
Theorem reference_x_is_never_updated :
  let first := dispatchTouch (TouchMove (mkTouchEvent [mkTouch 120 105])) touched in
  let second := dispatchTouch (TouchMove (mkTouchEvent [mkTouch 130 105])) (fst first) in
  touchStartX (this touched) = 100
  /\ rotation_y <$> installed touched = Some (Finite 0)
  /\ snd first = mkHandled true true Throw
  /\ touchStartX (this (fst first)) = 100
  /\ rotation_y <$> installed (fst first) = Some (Finite (0 + (120 - 100) * 0.01))
  /\ snd second = mkHandled true true Throw
  /\ touchStartX (this (fst second)) = 100
  /\ rotation_y <$> installed (fst second)
     = Some (Finite (0 + (120 - 100) * 0.01 + (130 - 100) * 0.01))
  /\ rotation_y <$> installed (fst second)
     <> Some (Finite (0 + (120 - 100) * 0.01 + (130 - 120) * 0.01)).
Proof.
  intros first second.
  assert (H1 : first = (claimed, mkHandled true true Throw)) by exact claimed_world.
  clearbody first. subst first.
  assert (H2 : second = _) by exact claimed_second_move.
  clearbody second. subst second. cbn [fst snd].
  destruct touched_facts as (_ & Hx0 & _).
  destruct claimed_facts as (_ & _ & _ & Hx & Hr).
  destruct claimed_second_move_facts as (Hx2 & Hr2).
  assert (Hr0 : rotation_y <$> installed touched = Some (Finite 0)) by reflexivity.
  refine (conj Hx0 (conj Hr0 (conj eq_refl (conj Hx (conj Hr (conj eq_refl
            (conj Hx2 (conj Hr2 _)))))))).
  rewrite Hr2. intros Heq. injection Heq as Heq. lra.
Qed.

(** ** Loading *)

#[local] Arguments parseFloat : simpl never.
#[local] Arguments camera_distance : simpl never.
#[local] Arguments getCenter : simpl never.
#[local] Arguments getSize : simpl never.

Lemma alter_last {A : Type} (f : A -> A) (l : list A) (a : A) :
  alter f (length l) (l ++ [a]) = l ++ [f a].
Proof.
  replace (length l) with (length l + 0)%nat by lia.
  by rewrite alter_app_r.
Qed.

(** What the success callback does in an initialised element. *)
Lemma onLoad_installs (w : World) (gltf : GLTF) (box : Box3)
    (s : Scene) (c : PerspectiveCamera) :
  scene (this w) = Some s ->
  camera (this w) = Some c ->
  let m := length (heap w) in
  let w' := fst (onLoad gltf box w) in
  snd (onLoad gltf box w) = Normal
  /\ model (this w') = Some m
  /\ heap w' = heap w ++ [placed gltf box w]
  /\ scene (this w') =
       Some (scene_add m (match model (this w) with
                          | Some previous => scene_remove previous s
                          | None => s
                          end))
  /\ camera (this w') = Some (set_camera_z (camera_distance (getSize box) (fov c)) c)
  /\ animationMixer (this w') =
       match animations gltf with
       | animation :: _ => Some (mkMixer m [animation] (Finite 0))
       | [] => animationMixer (this w)
       end
  /\ disposed w' = disposed w
  /\ dispatched w' =
       dispatched w ++ [mkCustomEvent "model-loaded" true true (DetailModel m)]
  /\ frames w' = frames w
  /\ inflight w' = inflight w
  /\ next_request w' = next_request w
  /\ attributes (this w') = attributes (this w)
  /\ renderer (this w') = renderer (this w).
Proof.
  intros Hs Hc m w'. subst w' m. unfold onLoad, with_scene, with_camera, bind.
  destruct w as [t hp dp fr inf nr ds cs rl tl nw cw ch].
  destruct t as [attrs sc cam ren md mx ck ar rs ini td tx ty thr hpn tms wd hg mu bg ms].
  simpl in Hs, Hc. subst sc cam.
  destruct md as [previous|];
    (destruct (animations gltf) as [|animation rest]; simpl;
     unfold update_object; simpl; rewrite !alter_last;
     repeat split; reflexivity).
Qed.

Lemma complete_inflight (request : nat) (r : LoaderResult) (w : World) :
  is_inflight request w = true ->
  complete request r w =
    let w0 := set_inflight
                (List.filter (fun p => negb (Nat.eqb (fst p) request)) (inflight w)) w in
    match r with
    | Loaded gltf box => onLoad gltf box w0
    | Failed error => (onError error w0, Normal)
    end.
Proof. intros H. unfold complete. by rewrite H. Qed.

Lemma loadModel_inflight (url : string) (w : World) :
  is_inflight (next_request w) (loadModel url w) = true
  /\ (forall r, is_inflight r w = true -> is_inflight r (loadModel url w) = true)
  /\ next_request (loadModel url w) = S (next_request w)
  /\ this (loadModel url w) = this w
  /\ heap (loadModel url w) = heap w.
Proof.
  unfold is_inflight, loadModel. simpl. repeat split.
  - rewrite existsb_app. simpl. rewrite Nat.eqb_refl. by rewrite !orb_true_r.
  - intros r H. rewrite existsb_app, H. done.
Qed.

Lemma complete_keeps_others (request other : nat) (r : LoaderResult) (w : World)
    (s : Scene) (c : PerspectiveCamera) :
  scene (this w) = Some s ->
  camera (this w) = Some c ->
  other <> request ->
  is_inflight other w = true ->
  is_inflight other (fst (complete request r w)) = true.
Proof.
  intros Hs Hc Hne Ho. unfold complete.
  destruct (is_inflight request w) eqn:Hr; [|done].
  assert (Hf : existsb (fun p => Nat.eqb (fst p) other)
                 (List.filter (fun p => negb (Nat.eqb (fst p) request)) (inflight w))
               = true).
  { unfold is_inflight in Ho. apply existsb_exists in Ho as (p & Hin & Hp).
    apply existsb_exists. exists p. split; [|done].
    apply filter_In. split; [done|].
    apply Nat.eqb_eq in Hp. rewrite Hp.
    apply negb_true_iff, Nat.eqb_neq. done. }
  destruct r as [gltf box|error].
  - pose proof (onLoad_installs
                  (set_inflight
                     (List.filter (fun p => negb (Nat.eqb (fst p) request)) (inflight w)) w)
                  gltf box s c Hs Hc) as H.
    simpl in H. destruct H as (_ & _ & _ & _ & _ & _ & _ & _ & _ & Hi & _).
    unfold is_inflight. rewrite Hi. exact Hf.
  - exact Hf.
Qed.

Lemma scene_add_children (r : nat) (s : Scene) :
  In r (scene_children (scene_add r s)).
Proof. unfold scene_add. simpl. apply in_or_app. right. by left. Qed.

Lemma scene_replace_children (old new : nat) (s : Scene) :
  old <> new -> ~ In old (scene_children (scene_add new (scene_remove old s))).
Proof.
  intros Hne H. unfold scene_add, scene_remove in H. simpl in H.
  apply in_app_or in H as [H|[H|[]]]; [|congruence].
  apply filter_In in H as [_ H]. by rewrite Nat.eqb_refl in H.
Qed.

(** C1 (as the code has it): the element keeps no count of its requests,
    and every answer of the loader is installed when it arrives.  With
    [load(A)] issued before [load(B)] and A answered after B, B's model is
    installed first and then replaced by A's: the model installed in the end
    is A's, B's is no longer in the scene, and the host is told of both. *)
Theorem last_completed_load_wins
    (w : World) (s : Scene) (c : PerspectiveCamera)
    (urlA urlB : string) (resultA resultB : GLTF) (boxA boxB : Box3) :
  scene (this w) = Some s ->
  camera (this w) = Some c ->
  let a := next_request w in
  let b := S a in
  let issued := loadModel urlB (loadModel urlA w) in
  let afterB := complete b (Loaded resultB boxB) issued in
  let afterA := complete a (Loaded resultA boxA) (fst afterB) in
  let refB := length (heap w) in
  let refA := S (length (heap w)) in
  snd afterB = Normal /\ snd afterA = Normal
  /\ installed (fst afterB) = Some (placed resultB boxB w)
  /\ model (this (fst afterA)) = Some refA
  /\ installed (fst afterA) = Some (placed resultA boxA w)
  /\ heap (fst afterA) = heap w ++ [placed resultB boxB w; placed resultA boxA w]
  /\ (exists s', scene (this (fst afterA)) = Some s'
                 /\ In refA (scene_children s') /\ ~ In refB (scene_children s'))
  /\ dispatched (fst afterA) =
       dispatched w ++ [mkCustomEvent "model-loaded" true true (DetailModel refB);
                        mkCustomEvent "model-loaded" true true (DetailModel refA)].
Proof.
  intros Hs Hc a b issued afterB afterA refB refA.
  destruct (loadModel_inflight urlA w) as (Ha & _ & Hna & Hta & Hha).
  destruct (loadModel_inflight urlB (loadModel urlA w)) as (Hb & Hkeep & _ & Htb & Hhb).
  fold issued in Hb, Hkeep, Htb, Hhb.
  assert (Hb' : is_inflight b issued = true) by (subst b a; by rewrite <- Hna).
  assert (Ha' : is_inflight a issued = true) by (apply Hkeep; exact Ha).
  assert (Hsi : scene (this issued) = Some s) by (by rewrite Htb, Hta).
  assert (Hci : camera (this issued) = Some c) by (by rewrite Htb, Hta).
  (* the answer for B *)
  set (issued' := set_inflight
                    (List.filter (fun p => negb (Nat.eqb (fst p) b)) (inflight issued))
                    issued).
  assert (HeB : afterB = onLoad resultB boxB issued').
  { subst afterB. by rewrite complete_inflight. }
  destruct (onLoad_installs issued' resultB boxB s c Hsi Hci)
    as (HB0 & HB1 & HB2 & HB3 & HB4 & _ & _ & HB7 & _ & _ & _ & HB11 & _).
  rewrite <- HeB in HB0, HB1, HB2, HB3, HB4, HB7, HB11.
  assert (Hai : is_inflight a (fst afterB) = true).
  { subst afterB. apply (complete_keeps_others b a _ issued s c); try done.
    all: subst b; lia. }
  (* the answer for A *)
  set (wB := set_inflight
               (List.filter (fun p => negb (Nat.eqb (fst p) a)) (inflight (fst afterB)))
               (fst afterB)).
  assert (HeA : afterA = onLoad resultA boxA wB).
  { subst afterA. by rewrite complete_inflight. }
  destruct (onLoad_installs wB resultA boxA _ _ HB3 HB4)
    as (HA0 & HA1 & HA2 & HA3 & _ & _ & _ & HA7 & _).
  rewrite <- HeA in HA0, HA1, HA2, HA3, HA7.
  assert (Hheap : heap issued' = heap w) by reflexivity.
  assert (Hattr : attributes (this issued') = attributes (this w)) by reflexivity.
  assert (HpB : placed resultB boxB issued' = placed resultB boxB w).
  { unfold placed. by rewrite Hattr. }
  assert (HpA : placed resultA boxA wB = placed resultA boxA w).
  { unfold placed. subst wB. simpl. by rewrite HB11, Hattr. }
  change (heap wB) with (heap (fst afterB)) in HA1, HA2, HA3.
  change (dispatched wB) with (dispatched (fst afterB)) in HA7.
  change (model (this wB)) with (model (this (fst afterB))) in HA3.
  rewrite HB2, Hheap, HpB in *.
  rewrite HpA in *. rewrite HB1 in HA3.
  rewrite length_app, Nat.add_1_r in HA1, HA3. simpl in HA1, HA3.
  change (length (heap wB)) with (length (heap (fst afterB))) in HA7.
  rewrite HB2, length_app, Nat.add_1_r in HA7. simpl in HA7.
  change (dispatched issued') with (dispatched w) in HB7.
  repeat split.
  - exact HB0.
  - exact HA0.
  - unfold installed. rewrite HB1, HB2. by apply list_lookup_middle.
  - exact HA1.
  - unfold installed. rewrite HA1, HA2. apply list_lookup_middle.
    by rewrite length_app, Nat.add_1_r.
  - rewrite HA2. by rewrite <- app_assoc.
  - eexists. split; [exact HA3|]. split.
    + apply scene_add_children.
    + apply scene_replace_children. lia.
  - rewrite HA7, HB7. by rewrite <- app_assoc.
Qed.

Lemma last_completed_load_wins_witness :
  installed
    (fst (complete 0 (Loaded modelA box222)
            (fst (complete 1 (Loaded modelB box222)
                    (loadModel "b.glb" (loadModel "a.glb" idle))))))
  = Some (placed modelA box222 idle).
Proof.
  assert (Hs : scene (this idle) = Some (mkScene None [0; 1]%nat)) by reflexivity.
  assert (Hc : camera (this idle)
               = Some (mkCamera (Finite 45) (ndiv (Finite 400) (Finite 300)) (vec 0 0 3)))
    by reflexivity.
  exact (proj1 (proj2 (proj2 (proj2 (proj2
           (last_completed_load_wins idle _ _ "a.glb" "b.glb" modelA modelB
              box222 box222 Hs Hc)))))).
Defined.

(** C1 as the specification has it fails: A was asked for first and B
    second, B arrived and was installed, then A arrived late and replaced
    it. *)
Lemma late_result_replaces_newer :
  inflight overlapping = [(0, "a.glb"); (1, "b.glb")]%nat%string
  /\ asset <$> installed afterB = Some (asset (gltf_scene modelB))
  /\ asset <$> installed afterA = Some (asset (gltf_scene modelA))
  /\ asset <$> installed afterA <> Some (asset (gltf_scene modelB))
  /\ (scene_children <$> scene (this afterA)) = Some [0; 1; 3]%nat
  /\ dispatched afterA =
       [mkCustomEvent "model-loaded" true true (DetailModel 2);
        mkCustomEvent "model-loaded" true true (DetailModel 3)].
Proof.
  assert (HA : asset <$> installed afterA = Some (asset (gltf_scene modelA)))
    by reflexivity.
  repeat split; try reflexivity.
  rewrite HA. discriminate.
Qed.

(** C2, at the input where the code fails it: model A (a mesh with a
    geometry and a material, and a mesh with a geometry and an array of two
    materials) is installed, then model B replaces it.  A's object leaves the scene, but
    [dispose()] is called on none of its resources, neither then nor when
    the element is disconnected, which disposes of B's only. *)
Theorem replaced_model_is_not_disposed :
  List.flat_map dispose_callback (traverse (gltf_scene modelA)) =
    [GeometryResource 10; MaterialResource 11;
     GeometryResource 12; MaterialResource 13; MaterialResource 14]
  /\ asset <$> installed loaded = Some (asset (gltf_scene modelA))
  /\ model (this loaded) = Some 2%nat
  /\ asset <$> installed reloaded = Some (asset (gltf_scene modelB))
  /\ scene_children <$> scene (this reloaded) = Some [0; 1; 3]%nat
  /\ disposed reloaded = []
  /\ disposed (disconnectedCallback reloaded) =
       [GeometryResource 20; MaterialResource 21].
Proof. repeat split; reflexivity. Qed.

(** The teardown path does dispose of what is in the scene: every geometry
    and every material of the installed model, each element of an array of
    materials included, once. *)
Lemma disconnect_disposes_installed :
  disposed (disconnectedCallback loaded) =
    [GeometryResource 10; MaterialResource 11;
     GeometryResource 12; MaterialResource 13; MaterialResource 14].
Proof. reflexivity. Qed.

(** C10: a load that fails tells the host, with the cause, and changes
    nothing else: every field of the element (the installed model, the
    scene, the camera, the animation mixer), the objects of the scene graph,
    the disposal log and the render loop are as before, and another load
    can be issued. *)
Theorem failed_load_changes_nothing (w : World) (request : nat) (error url : string) :
  is_inflight request w = true ->
  let w' := fst (complete request (Failed error) w) in
  snd (complete request (Failed error) w) = Normal
  /\ dispatched w' =
       dispatched w ++ [mkCustomEvent "model-error" true true (DetailError error)]
  /\ this w' = this w
  /\ installed w' = installed w
  /\ heap w' = heap w
  /\ disposed w' = disposed w
  /\ frames w' = frames w
  /\ is_inflight (next_request w') (loadModel url w') = true.
Proof.
  intros H w'. subst w'. rewrite complete_inflight by done.
  cbv zeta. simpl fst; simpl snd.
  repeat split; try reflexivity.
  exact (proj1 (loadModel_inflight url _)).
Qed.

Lemma failed_load_changes_nothing_witness :
  this (fst (complete 1 (Failed "404") loaded_pending)) = this loaded_pending.
Proof.
  assert (H : is_inflight 1 loaded_pending = true) by reflexivity.
  exact (proj1 (proj2 (proj2
           (failed_load_changes_nothing loaded_pending 1 "404" "c.glb" H)))).
Defined.

(** ** The render loop *)

(** [animate] always asks for the next frame, and leaves the scene, the
    camera and the renderer in place. *)
Lemma animate_schedules (w : World) :
  frames (animate w) = S (frames w)
  /\ scene (this (animate w)) = scene (this w)
  /\ camera (this (animate w)) = camera (this w)
  /\ (is_Some (renderer (this w)) -> is_Some (renderer (this (animate w)))).
Proof.
  destruct_world w. unfold animate, getDelta, update_object. simpl.
  case_matches; repeat split; try reflexivity; intros [? ?]; try discriminate; eauto.
Qed.

(** [animate] draws when there is a renderer, a scene and a camera. *)
Lemma animate_renders (w : World) :
  is_Some (renderer (this w)) ->
  is_Some (scene (this w)) ->
  is_Some (camera (this w)) ->
  renders (animate w) = S (renders w).
Proof.
  intros [r Hr] [s Hs] [c Hc]. destruct_world w. simpl in Hr, Hs, Hc. subst.
  unfold renders, animate, getDelta, update_object. simpl.
  case_matches; reflexivity.
Qed.

Lemma disconnectedCallback_keeps_loop (w : World) :
  frames (disconnectedCallback w) = frames w
  /\ renders (disconnectedCallback w) = renders w
  /\ scene (this (disconnectedCallback w)) = scene (this w)
  /\ camera (this (disconnectedCallback w)) = camera (this w)
  /\ (is_Some (renderer (this w)) -> is_Some (renderer (this (disconnectedCallback w)))).
Proof.
  destruct_world w. unfold disconnectedCallback, disposeScene, renders. simpl.
  case_matches; repeat split; try reflexivity; intros [? ?]; try discriminate; eauto.
Qed.

(** Ticks of a loop that runs with a renderer, a scene and a camera. *)
Lemma ticks_of_running_loop (ts : list R) (w : World) :
  frames w <> 0%nat ->
  is_Some (renderer (this w)) ->
  is_Some (scene (this w)) ->
  is_Some (camera (this w)) ->
  frames (ticks ts w) = frames w
  /\ renders (ticks ts w) = (renders w + length ts)%nat.
Proof.
  revert w. induction ts as [|t ts IH]; intros w Hf Hr Hs Hc.
  - simpl. split; [done | lia].
  - simpl ticks. unfold tick. destruct (frames w) as [|n] eqn:Hn; [done|].
    set (w0 := set_now t (set_frames n w)).
    destruct (animate_schedules w0) as (Hf' & Hs' & Hc' & Hr').
    assert (Hn0 : frames w0 = n) by reflexivity.
    destruct (IH (animate w0)) as [IH1 IH2].
    + rewrite Hf'. lia.
    + apply Hr'. exact Hr.
    + rewrite Hs'. exact Hs.
    + rewrite Hc'. exact Hc.
    + rewrite IH1, IH2, Hf', Hn0. rewrite animate_renders by done.
      change (renders w0) with (renders w). simpl. split; [done | lia].
Qed.

(** C8 (as the code has it): disconnecting the element does not stop the
    render loop.  [animate] asks for the next frame whenever it runs and
    nothing ever cancels the request, so after [disconnectedCallback] every
    display refresh still runs [animate], which still draws, and the next
    frame stays requested.  Before the element is initialised no frame is
    requested, so a tick does nothing; [animate] itself, run then, changes
    nothing but the request for the next frame. *)
Theorem render_loop_survives_disconnect (w : World) (ts : list R) :
  frames w <> 0%nat ->
  is_Some (renderer (this w)) ->
  is_Some (scene (this w)) ->
  is_Some (camera (this w)) ->
  frames (ticks ts (disconnectedCallback w)) = frames w
  /\ renders (ticks ts (disconnectedCallback w))
     = (renders (disconnectedCallback w) + length ts)%nat
  /\ forall attrs touch time width height,
       animate (createElement attrs touch time width height)
       = set_frames 1 (createElement attrs touch time width height)
       /\ tick time (createElement attrs touch time width height)
          = createElement attrs touch time width height.
Proof.
  intros Hf Hr Hs Hc.
  destruct (disconnectedCallback_keeps_loop w) as (Hf' & _ & Hs' & Hc' & Hr').
  destruct (ticks_of_running_loop ts (disconnectedCallback w)) as [H1 H2].
  - by rewrite Hf'.
  - by apply Hr'.
  - by rewrite Hs'.
  - by rewrite Hc'.
  - rewrite H1, H2, Hf'. repeat split.
Qed.

Lemma render_loop_survives_disconnect_witness :
  frames (ticks [16; 33; 50] (disconnectedCallback connected)) = frames connected.
Proof.
  assert (Hf1 : frames connected = 1%nat) by reflexivity.
  assert (Hf : frames connected <> 0%nat) by (rewrite Hf1; discriminate).
  assert (Hr : is_Some (renderer (this connected)))
    by (exists (mkRenderer 0 1); reflexivity).
  assert (Hs : is_Some (scene (this connected)))
    by (exists (mkScene None [0; 1]%nat); reflexivity).
  assert (Hc : is_Some (camera (this connected)))
    by (exists (mkCamera (Finite 45) (ndiv (Finite 400) (Finite 300)) (vec 0 0 3));
        reflexivity).
  exact (proj1 (render_loop_survives_disconnect connected [16; 33; 50] Hf Hr Hs Hc)).
Defined.

(** C8 as the specification has it fails: after the element is disconnected
    a frame is still requested, the tick runs, draws, and requests the
    next. *)
Lemma loop_runs_after_disconnect :
  frames (disconnectedCallback connected) = 1%nat
  /\ frames (tick 16 (disconnectedCallback connected)) = 1%nat
  /\ renders (disconnectedCallback connected) = 1%nat
  /\ renders (tick 16 (disconnectedCallback connected)) = 2%nat
  /\ frames (disconnectedCallback connected) <> 0%nat.
Proof.
  assert (H : frames (disconnectedCallback connected) = 1%nat) by reflexivity.
  repeat split; try reflexivity. rewrite H. discriminate.
Qed.

(** ** Framing the camera *)

Lemma half_fov_45 : 45 * (PI / 180) / 2 = PI / 8.
Proof. lra. Qed.

Lemma tan_PI8_pos : 0 < tan (PI / 8).
Proof. pose proof PI_RGT_0. apply tan_gt_0; lra. Qed.

(** [tan (PI / 8)] is the positive root of [t * t + 2 * t = 1]. *)
Lemma tan_PI8_root : tan (PI / 8) * tan (PI / 8) + 2 * tan (PI / 8) = 1.
Proof.
  pose proof PI_RGT_0 as Hpi.
  assert (Hc : 0 < cos (PI / 8)) by (apply cos_gt_0; lra).
  assert (H4 : sin (2 * (PI / 8)) = cos (2 * (PI / 8))).
  { replace (2 * (PI / 8)) with (PI / 4) by lra. by rewrite sin_PI4, cos_PI4. }
  rewrite sin_2a, cos_2a in H4.
  unfold tan. set (s := sin (PI / 8)) in *. set (c := cos (PI / 8)) in *.
  assert (Hne : c <> 0) by lra.
  apply (Rmult_eq_reg_r (c * c)); [|nra].
  replace ((s / c * (s / c) + 2 * (s / c)) * (c * c)) with (s * s + 2 * s * c)
    by (field; exact Hne).
  lra.
Qed.

Lemma tan_PI8_bounds : 1.5 / 3.63 < tan (PI / 8) < 1.5 / 3.62.
Proof.
  pose proof tan_PI8_pos as Hp. pose proof tan_PI8_root as Hr.
  set (t := tan (PI / 8)) in *. split.
  - destruct (Rlt_le_dec (1.5 / 3.63) t) as [H|H]; [exact H | exfalso].
    assert (t <= 0.4133) by lra. nra.
  - destruct (Rlt_le_dec t (1.5 / 3.62)) as [H|H]; [exact H | exfalso].
    assert (0.4143 <= t) by lra. nra.
Qed.

(** The distance for a box of finite size, when the tangent is not zero. *)
Lemma camera_distance_finite (sizeX sizeY sizeZ fovDegrees : R) :
  tan (fovDegrees * (PI / 180) / 2) <> 0 ->
  camera_distance (vec sizeX sizeY sizeZ) (Finite fovDegrees) =
    Finite (Rabs (Rmax (Rmax sizeX sizeY) sizeZ / 2
                  / tan (fovDegrees * (PI / 180) / 2)) * 1.5).
Proof.
  intros Ht. unfold camera_distance, vec, Math_max, Math_max2. cbn [x y z].
  rewrite (ndiv_finite PI 180) by lra. cbn [nmul].
  rewrite (ndiv_finite _ 2) by lra. cbn [Math_tan].
  rewrite (ndiv_finite _ 2) by lra.
  rewrite (ndiv_finite _ _ Ht). reflexivity.
Qed.

Lemma getSize_box222 : getSize box222 = vec 2 2 2.
Proof.
  unfold getSize, isEmpty, box222, vec. cbn [box_min box_max x y z nltb].
  rewrite (Rltb_false 1 (-1)) by lra. cbn [orb].
  unfold vsub, nsub. cbn [x y z nneg nadd]. do 3 f_equal; lra.
Qed.

Lemma getSize_empty_box : getSize empty_box = vec 0 0 0.
Proof. reflexivity. Qed.

Lemma resetCamera_idempotent (box : Box3) (w : World) :
  resetCamera box (resetCamera box w) = resetCamera box w.
Proof.
  destruct_world w. unfold resetCamera. simpl. case_matches; reflexivity.
Qed.

Lemma resetCamera_distance (box : Box3) (w : World) (c : PerspectiveCamera) (m : nat) :
  camera (this w) = Some c ->
  model (this w) = Some m ->
  camera (this (resetCamera box w)) =
    Some (mkCamera (fov c) (aspect c)
            (mkVector3 (Finite 0) (Finite 0) (camera_distance (getSize box) (fov c)))).
Proof.
  intros Hc Hm. destruct_world w. simpl in Hc, Hm. subst. reflexivity.
Qed.

Lemma tan_half_fov_45 : tan (45 * (PI / 180) / 2) <> 0.
Proof. rewrite half_fov_45. pose proof tan_PI8_pos. lra. Qed.

Lemma camera_distance_zero (box : Box3) :
  getSize box = vec 0 0 0 -> camera_distance (getSize box) (Finite 45) = Finite 0.
Proof.
  intros H. rewrite H, camera_distance_finite by exact tan_half_fov_45.
  f_equal. rewrite !(Rmax_left 0 0) by lra.
  replace (0 / 2 / tan (45 * (PI / 180) / 2)) with 0.
  - rewrite Rabs_R0. lra.
  - unfold Rdiv. ring.
Qed.

(** The camera after [onLoad], and after [resetCamera] on top of it. *)
Lemma framed_camera (w : World) (gltf : GLTF) (box : Box3)
    (s : Scene) (c : PerspectiveCamera) :
  scene (this w) = Some s ->
  camera (this w) = Some c ->
  camera_z (fst (onLoad gltf box w)) = Some (camera_distance (getSize box) (fov c))
  /\ camera_z (resetCamera box (fst (onLoad gltf box w)))
     = Some (camera_distance (getSize box) (fov c)).
Proof.
  intros Hs Hc.
  destruct (onLoad_installs w gltf box s c Hs Hc) as (_ & Hm & _ & _ & Hcam & _).
  unfold camera_z. split.
  - by rewrite Hcam.
  - by rewrite (resetCamera_distance box _ _ _ Hcam Hm).
Qed.

Lemma getSize_box424 : getSize box424 = vec 4 2 2.
Proof.
  unfold getSize, isEmpty, box424, vec. cbn [box_min box_max x y z nltb].
  rewrite (Rltb_false 2 (-2)), (Rltb_false 1 (-1)) by lra. cbn [orb].
  unfold vsub, nsub. cbn [x y z nneg nadd]. do 3 f_equal; lra.
Qed.

(** C6: the distance of the camera is
    [|maxDimension / 2 / tan (fov / 2)| * 1.5], with [maxDimension] the
    largest side of the box and [fov] the field of view in radians.  It is
    what [loadModel] sets on success; and [resetCamera], on any element with
    a camera and a model, wherever the camera is, puts the camera at
    [(0, 0, distance)] and keeps its field of view and its aspect, so that
    doing it again for the same box changes nothing.  For the box of size
    (2, 2, 2) at 45 degrees the distance is [|1 / tan (22.5 degrees)| * 1.5],
    between 3.62 and 3.63. *)
Theorem camera_distance_formula
    (w : World) (gltf : GLTF) (box : Box3) (s : Scene) (c : PerspectiveCamera)
    (v : World) (cv : PerspectiveCamera) (m : nat)
    (sizeX sizeY sizeZ fovDegrees : R) :
  getSize box = vec sizeX sizeY sizeZ ->
  tan (fovDegrees * (PI / 180) / 2) <> 0 ->
  scene (this w) = Some s ->
  camera (this w) = Some c ->
  fov c = Finite fovDegrees ->
  camera (this v) = Some cv ->
  fov cv = Finite fovDegrees ->
  model (this v) = Some m ->
  let maxDimension := Rmax (Rmax sizeX sizeY) sizeZ in
  let fovRadians := fovDegrees * (PI / 180) in
  let distance := Finite (Rabs (maxDimension / 2 / tan (fovRadians / 2)) * 1.5) in
  camera_distance (getSize box) (Finite fovDegrees) = distance
  /\ camera_z (fst (onLoad gltf box w)) = Some distance
  /\ camera_z (resetCamera box (fst (onLoad gltf box w))) = Some distance
  /\ camera (this (resetCamera box v))
     = Some (mkCamera (Finite fovDegrees) (aspect cv)
               (mkVector3 (Finite 0) (Finite 0) distance))
  /\ resetCamera box (resetCamera box v) = resetCamera box v
  /\ resetCamera box (resetCamera box w) = resetCamera box w
  /\ camera_distance (getSize box222) (Finite 45)
     = Finite (Rabs (1 / tan (22.5 * (PI / 180))) * 1.5)
  /\ 3.62 < Rabs (1 / tan (22.5 * (PI / 180))) * 1.5 < 3.63.
Proof.
  intros Hsize Htan Hs Hc Hfov Hcv Hfovv Hm maxDimension fovRadians distance.
  assert (Hd : camera_distance (getSize box) (Finite fovDegrees) = distance).
  { rewrite Hsize. by apply camera_distance_finite. }
  destruct (framed_camera w gltf box s c Hs Hc) as [Hload Hreset].
  rewrite Hfov, Hd in Hload, Hreset.
  pose proof (resetCamera_distance box v cv m Hcv Hm) as Hv.
  rewrite Hfovv, Hd in Hv.
  replace (22.5 * (PI / 180)) with (PI / 8) by lra.
  pose proof tan_PI8_pos as Hp. pose proof tan_PI8_bounds as [Hlo Hhi].
  repeat split; try done.
  - apply resetCamera_idempotent.
  - apply resetCamera_idempotent.
  - rewrite getSize_box222, camera_distance_finite by exact tan_half_fov_45.
    rewrite half_fov_45, !(Rmax_left 2 2) by lra. do 3 f_equal. lra.
  - rewrite Rabs_pos_eq.
    + replace (1 / tan (PI / 8) * 1.5) with (1.5 / tan (PI / 8)) by (field; lra).
      apply (Rmult_lt_reg_r (tan (PI / 8))); [lra|].
      replace (1.5 / tan (PI / 8) * tan (PI / 8)) with 1.5 by (field; lra). lra.
    + apply Rlt_le, Rdiv_lt_0_compat; lra.
  - rewrite Rabs_pos_eq.
    + replace (1 / tan (PI / 8) * 1.5) with (1.5 / tan (PI / 8)) by (field; lra).
      apply (Rmult_lt_reg_r (tan (PI / 8))); [lra|].
      replace (1.5 / tan (PI / 8) * tan (PI / 8)) with 1.5 by (field; lra). lra.
    + apply Rlt_le, Rdiv_lt_0_compat; lra.
Qed.

(** The model of the example is loaded into the connected element, framed
    for a box of size (4, 2, 2); and on the element whose camera is framed
    for the box of size (2, 2, 2), [resetCamera] with the larger box moves
    the camera to the distance for that box. *)
Lemma camera_distance_formula_witness :
  camera_z (fst (onLoad modelA box424 connected))
  = Some (Finite (Rabs (Rmax (Rmax 4 2) 2 / 2 / tan (45 * (PI / 180) / 2)) * 1.5))
  /\ camera (this (resetCamera box424 loaded))
     = Some (mkCamera (Finite 45) (ndiv (Finite 400) (Finite 300))
               (mkVector3 (Finite 0) (Finite 0)
                  (Finite (Rabs (Rmax (Rmax 4 2) 2 / 2 / tan (45 * (PI / 180) / 2)) * 1.5)))).
Proof.
  assert (Hs : scene (this connected) = Some (mkScene None [0; 1]%nat)) by reflexivity.
  assert (Hc : camera (this connected)
               = Some (mkCamera (Finite 45) (ndiv (Finite 400) (Finite 300)) (vec 0 0 3)))
    by reflexivity.
  assert (Hcv : camera (this loaded)
                = Some (mkCamera (Finite 45) (ndiv (Finite 400) (Finite 300))
                          (mkVector3 (Finite 0) (Finite 0)
                             (camera_distance (getSize box222) (Finite 45)))))
    by reflexivity.
  assert (Hm : model (this loaded) = Some 2%nat) by reflexivity.
  pose proof (camera_distance_formula
                connected modelA box424 _ _ loaded _ 2%nat 4 2 2 45
                getSize_box424 tan_half_fov_45 Hs Hc eq_refl Hcv eq_refl Hm) as H.
  exact (conj (proj1 (proj2 H)) (proj1 (proj2 (proj2 (proj2 H))))).
Defined.

(** C3 (as the code has it): for a box of size zero, at the field of view
    of 45 degrees that [initScene] gives the camera, nothing is divided by
    zero and the distance is neither infinite nor NaN; it is 0.  There is no
    fallback distance: the camera is put at [z = 0], by [loadModel] and by
    [resetCamera] alike. *)
Theorem zero_size_box_gives_distance_zero
    (w : World) (gltf : GLTF) (box : Box3) (s : Scene) (c : PerspectiveCamera) :
  getSize box = vec 0 0 0 ->
  scene (this w) = Some s ->
  camera (this w) = Some c ->
  fov c = Finite 45 ->
  camera_distance (getSize box) (Finite 45) = Finite 0
  /\ isFinite (camera_distance (getSize box) (Finite 45)) = true
  /\ isNaN (camera_distance (getSize box) (Finite 45)) = false
  /\ camera_z (fst (onLoad gltf box w)) = Some (Finite 0)
  /\ camera_z (resetCamera box (fst (onLoad gltf box w))) = Some (Finite 0).
Proof.
  intros Hsize Hs Hc Hfov.
  destruct (framed_camera w gltf box s c Hs Hc) as [Hload Hreset].
  rewrite Hfov in Hload, Hreset.
  rewrite (camera_distance_zero box Hsize) in *.
  repeat split; done.
Qed.

Lemma zero_size_box_gives_distance_zero_witness :
  camera_z (fst (onLoad emptyModel empty_box connected)) = Some (Finite 0).
Proof.
  assert (Hs : scene (this connected) = Some (mkScene None [0; 1]%nat)) by reflexivity.
  assert (Hc : camera (this connected)
               = Some (mkCamera (Finite 45) (ndiv (Finite 400) (Finite 300)) (vec 0 0 3)))
    by reflexivity.
  exact (proj1 (proj2 (proj2 (proj2 (zero_size_box_gives_distance_zero
                                       connected emptyModel empty_box _ _
                                       getSize_empty_box Hs Hc eq_refl))))).
Defined.

(** C3 as the specification has it fails: an empty model is loaded, its box
    has size zero, and the camera ends at distance 0, which is not
    positive. *)
Lemma empty_model_puts_camera_at_zero :
  getSize empty_box = vec 0 0 0
  /\ camera_z loadedEmpty = Some (Finite 0)
  /\ ~ (exists d : R, 0 < d /\ camera_z loadedEmpty = Some (Finite d)).
Proof.
  assert (H : camera_z loadedEmpty
              = Some (camera_distance (getSize empty_box) (Finite 45))) by reflexivity.
  rewrite (camera_distance_zero empty_box getSize_empty_box) in H.
  repeat split; [exact H|].
  intros (d & Hd & Hz). rewrite H in Hz. injection Hz as Hz. lra.
Qed.

(** ** Configuration *)

Lemma or_default_absent (default : string) :
  or_default None default = default /\ or_default (Some EmptyString) default = default.
Proof. split; reflexivity. Qed.

Lemma or_default_text (v default : string) :
  v <> EmptyString -> or_default (Some v) default = v.
Proof. intros H. destruct v; [done | reflexivity]. Qed.

#[local] Arguments getAttribute : simpl never.
#[local] Arguments hasAttribute : simpl never.

Lemma initScene_keeps (w : World) :
  rotateSpeed (this (initScene w)) = rotateSpeed (this w)
  /\ modelScale (this (initScene w)) = modelScale (this w)
  /\ dispatched (initScene w) = dispatched w
  /\ is_Some (renderer (this (initScene w))).
Proof.
  destruct w as [t hp dp fr inf nr ds cs rl tl nw cw ch].
  destruct t as [attrs sc cam ren md mx [going ot] ar rs ini td tx ty thr hpn tms
                 wd hg mu bg ms].
  destruct ar, md as [m|], mx as [mixer|], going;
    (repeat split; try reflexivity; exists (mkRenderer 0 1); reflexivity).
Qed.

Lemma setupTouchEvents_keeps (w : World) :
  is_Some (renderer (this w)) ->
  this (fst (setupTouchEvents w)) = this w
  /\ dispatched (fst (setupTouchEvents w)) = dispatched w
  /\ snd (setupTouchEvents w) = Normal.
Proof.
  intros [r Hr]. unfold setupTouchEvents. rewrite Hr.
  by destruct (isTouchDevice (this w)).
Qed.

(** What [connectedCallback] reads from the numeric attributes. *)
Lemma connectedCallback_numbers (w : World) :
  rotateSpeed (this (fst (connectedCallback w)))
  = parseFloat (or_default (getAttribute "rotate-speed" w) "0.005")
  /\ modelScale (this (fst (connectedCallback w)))
     = Some (parseFloat (or_default (getAttribute "scale" w) "1.0"))
  /\ dispatched (fst (connectedCallback w)) = dispatched w
  /\ snd (connectedCallback w) = Normal.
Proof.
  unfold connectedCallback. cbv zeta.
  set (w1 := update_this _ w).
  destruct (initScene_keeps w1) as (Hr & Hm & Hd & Hren).
  set (w2 := match modelUrl (this (initScene w1)) with
             | Some (String _ _ as url) => loadModel url (initScene w1)
             | _ => initScene w1
             end).
  assert (H2 : this w2 = this (initScene w1) /\ dispatched w2 = dispatched (initScene w1)).
  { subst w2. generalize (initScene w1). intros w0.
    destruct (modelUrl (this w0)) as [[|a url]|]; split; reflexivity. }
  destruct H2 as [Ht2 Hd2].
  set (w3 := set_resize_listeners _ w2).
  destruct (setupTouchEvents_keeps w3) as (Ht3 & Hd3 & Hn3).
  { change (this w3) with (this w2). by rewrite Ht2. }
  rewrite Ht3, Hd3, Hn3.
  change (this w3) with (this w2). change (dispatched w3) with (dispatched w2).
  rewrite Ht2, Hd2, Hr, Hm, Hd. repeat split.
Qed.

(** What a change of a numeric attribute stores. *)
Lemma attributeChangedCallback_numbers (w : World) (oldValue newValue : option string) :
  isInitialized (this w) = true ->
  rotateSpeed (this (attributeChangedCallback "rotate-speed" oldValue newValue w))
  = parseFloat (or_default newValue "0.005")
  /\ scale <$> installed (attributeChangedCallback "scale" oldValue newValue w)
     = (fun _ => let v := parseFloat (or_default newValue "1.0") in mkVector3 v v v)
         <$> installed w
  /\ dispatched (attributeChangedCallback "rotate-speed" oldValue newValue w)
     = dispatched w
  /\ dispatched (attributeChangedCallback "scale" oldValue newValue w) = dispatched w.
Proof.
  intros Hi. destruct_world w. simpl in Hi. subst.
  unfold attributeChangedCallback, installed, update_object. simpl.
  repeat split; try reflexivity.
  - destruct model0 as [m|]; simpl; [|reflexivity].
    rewrite list_lookup_alter_eq. by destruct (heap0 !! m).
  - by destruct model0.
Qed.

(** C9 (as the code has it): a numeric attribute that is absent or empty
    gives the default, 0.005 for [rotate-speed] and 1.0 for [scale]; a text
    that [parseFloat] cannot read is not replaced by the default: NaN is
    stored as the speed of rotation and as the scale of the model, when the
    element is connected as well as when the attribute changes later.  In
    neither case is the host told. *)
Theorem unparseable_number_is_stored_as_NaN
    (page w : World) (oldValue newValue : option string) :
  isInitialized (this w) = true ->
  let connected := fst (connectedCallback page) in
  let turned := attributeChangedCallback "rotate-speed" oldValue newValue w in
  let scaled := attributeChangedCallback "scale" oldValue newValue w in
  ((newValue = None \/ newValue = Some EmptyString) ->
   rotateSpeed (this turned) = Finite 0.005
   /\ scale <$> installed scaled = (fun _ => vec 1 1 1) <$> installed w)
  /\ (forall v, newValue = Some v -> v <> EmptyString -> parseFloat v = NaN ->
      rotateSpeed (this turned) = NaN
      /\ scale <$> installed scaled = (fun _ => mkVector3 NaN NaN NaN) <$> installed w)
  /\ ((getAttribute "rotate-speed" page = None
       \/ getAttribute "rotate-speed" page = Some EmptyString) ->
      rotateSpeed (this connected) = Finite 0.005)
  /\ ((getAttribute "scale" page = None
       \/ getAttribute "scale" page = Some EmptyString) ->
      modelScale (this connected) = Some (Finite 1))
  /\ (forall v, getAttribute "rotate-speed" page = Some v -> v <> EmptyString ->
      parseFloat v = NaN -> rotateSpeed (this connected) = NaN)
  /\ (forall v, getAttribute "scale" page = Some v -> v <> EmptyString ->
      parseFloat v = NaN -> modelScale (this connected) = Some NaN)
  /\ dispatched turned = dispatched w
  /\ dispatched scaled = dispatched w
  /\ dispatched connected = dispatched page.
Proof.
  intros Hi connected turned scaled.
  destruct (connectedCallback_numbers page) as (Hc1 & Hc2 & Hc3 & _).
  destruct (attributeChangedCallback_numbers w oldValue newValue Hi)
    as (Ha1 & Ha2 & Ha3 & Ha4).
  fold connected in Hc1, Hc2, Hc3. fold turned in Ha1, Ha3. fold scaled in Ha2, Ha4.
  repeat apply conj.
  - intros H. rewrite Ha1, Ha2. cbv zeta.
    destruct H as [-> | ->]; simpl or_default;
      by rewrite parseFloat_default_rotate_speed, parseFloat_default_scale.
  - intros v -> Hv Hnan. rewrite Ha1, Ha2. cbv zeta.
    rewrite !or_default_text by done. by rewrite Hnan.
  - intros H. rewrite Hc1.
    destruct H as [-> | ->]; apply parseFloat_default_rotate_speed.
  - intros H. rewrite Hc2.
    destruct H as [-> | ->]; simpl or_default; by rewrite parseFloat_default_scale.
  - intros v Hv Hne Hnan. by rewrite Hc1, Hv, or_default_text.
  - intros v Hv Hne Hnan. rewrite Hc2, Hv, or_default_text by done. by rewrite Hnan.
  - exact Ha3.
  - exact Ha4.
  - exact Hc3.
Qed.

Lemma unparseable_number_is_stored_as_NaN_witness :
  rotateSpeed (this (attributeChangedCallback "rotate-speed" None (Some "fast"%string)
                       loaded)) = NaN
  /\ rotateSpeed (this (fst (connectedCallback misconfigured))) = NaN.
Proof.
  assert (Hi : isInitialized (this loaded) = true) by reflexivity.
  assert (Hn : parseFloat "fast" = NaN) by reflexivity.
  assert (Ha : getAttribute "rotate-speed" misconfigured = Some "fast"%string)
    by reflexivity.
  assert (He : "fast"%string <> EmptyString) by discriminate.
  pose proof (unparseable_number_is_stored_as_NaN
                misconfigured loaded None (Some "fast"%string) Hi)
    as (_ & Hchange & _ & _ & Hconnect & _).
  split.
  - exact (proj1 (Hchange "fast"%string eq_refl He Hn)).
  - exact (Hconnect "fast"%string Ha He Hn).
Defined.

(** C9 as the specification has it fails: with [rotate-speed="fast"] and
    [scale="big"] the element stores NaN, not 0.005 and 1.0, at connection
    and at a later change. *)
Lemma unparseable_attributes_give_NaN :
  rotateSpeed (this (fst (connectedCallback misconfigured))) = NaN
  /\ modelScale (this (fst (connectedCallback misconfigured))) = Some NaN
  /\ rotateSpeed (this (setAttribute "rotate-speed" "fast" loaded)) = NaN
  /\ scale <$> installed (setAttribute "scale" "big" loaded)
     = Some (mkVector3 NaN NaN NaN)
  /\ rotateSpeed (this (setAttribute "rotate-speed" "fast" loaded)) <> Finite 0.005.
Proof.
  assert (H : rotateSpeed (this (setAttribute "rotate-speed" "fast" loaded)) = NaN)
    by reflexivity.
  repeat split; try reflexivity. rewrite H. discriminate.
Qed.

(** * Further properties *)

(** ** Gestures *)

(** X1: while the gesture is undecided, a one-finger move that stays within
    the threshold on both axes (15 pixels included) changes nothing and
    leaves the event alone. *)
Theorem move_within_threshold_is_ignored
    (w : World) (event : option TouchEvent) (t : Touch) :
  touchMoveStarted (this w) = false ->
  Rabs (clientX t - touchStartX (this w)) <= touchThreshold (this w) ->
  Rabs (clientY t - touchStartY (this w)) <= touchThreshold (this w) ->
  on_touchmove event (mkTouchEvent [t]) w = (w, untouched).
Proof.
  intros Hs Hx Hy. unfold on_touchmove. simpl touches. cbv iota zeta.
  rewrite Hs, (Rgtb_false _ _ (Rle_not_gt _ _ Hx)), (Rgtb_false _ _ (Rle_not_gt _ _ Hy)).
  reflexivity.
Qed.

Lemma move_within_threshold_is_ignored_witness :
  on_touchmove None (mkTouchEvent [mkTouch 115 88]) touched = (touched, untouched).
Proof.
  destruct touched_facts as (Hs & Hx & Hy & Hthr & _).
  apply (move_within_threshold_is_ignored touched None (mkTouch 115 88) Hs).
  - rewrite Hx, Hthr. simpl clientX. rewrite Rabs_pos_eq; lra.
  - rewrite Hy, Hthr. simpl clientY. rewrite Rabs_left; lra.
Defined.

(** X2: an event with no contact or with more than one is ignored by the
    [touchstart] and by the [touchmove] listener, whatever the state of the
    gesture. *)
Theorem multi_touch_is_ignored (w : World) (event : option TouchEvent) (e : TouchEvent) :
  length (touches e) <> 1%nat ->
  on_touchstart e w = w /\ on_touchmove event e w = (w, untouched).
Proof.
  intros H. unfold on_touchstart, on_touchmove.
  destruct (touches e) as [|t [|t' rest]]; try done.
Qed.

Lemma multi_touch_is_ignored_witness :
  on_touchmove None (mkTouchEvent [mkTouch 300 100; mkTouch 10 10]) claimed
  = (claimed, untouched).
Proof.
  assert (H : length (touches (mkTouchEvent [mkTouch 300 100; mkTouch 10 10])) <> 1%nat)
    by discriminate.
  exact (proj2 (multi_touch_is_ignored claimed None _ H)).
Defined.

(** X3: the [touchmove] listener never turns the model while it leaves the
    default action to the browser: when it does not prevent the default, the
    objects of the scene graph and the reference point are as before and no
    exception leaves it. *)
Theorem no_rotation_without_preventDefault
    (w : World) (event : option TouchEvent) (e : TouchEvent) :
  defaultPrevented (snd (on_touchmove event e w)) = false ->
  heap (fst (on_touchmove event e w)) = heap w
  /\ touchStartX (this (fst (on_touchmove event e w))) = touchStartX (this w)
  /\ model (this (fst (on_touchmove event e w))) = model (this w)
  /\ snd (on_touchmove event e w) = untouched.
Proof.
  unfold on_touchmove.
  destruct (touches e) as [|t [|t' rest]]; try done.
  cbv zeta.
  destruct (negb (touchMoveStarted (this w)) && _)%bool.
  - destruct (Rgtb _ _ && Rgtb _ _)%bool; [|done].
    destruct (handleHorizontalPan _ _ _). simpl. discriminate.
  - destruct (touchMoveStarted (this w) && isHorizontalPan (this w))%bool; [|done].
    destruct (handleHorizontalPan _ _ _). simpl. discriminate.
Qed.

Lemma no_rotation_without_preventDefault_witness :
  heap (fst (on_touchmove None (mkTouchEvent [mkTouch 116 112]) ceded)) = heap ceded.
Proof.
  assert (Hc : phase ceded = CededVertical) by reflexivity.
  assert (H : defaultPrevented
                (snd (on_touchmove None (mkTouchEvent [mkTouch 116 112]) ceded)) = false).
  { rewrite (ceded_move_is_noop ceded None _ Hc). reflexivity. }
  exact (proj1 (no_rotation_without_preventDefault ceded None _ H)).
Defined.

(** X4: on an element without a model, a one-finger move of a claimed
    gesture prevents the default action and does nothing else:
    [handleHorizontalPan] returns at once, so the reference X is not
    updated either. *)
Theorem claimed_move_without_model
    (w : World) (event : option TouchEvent) (t : Touch) :
  phase w = ClaimedHorizontal ->
  model (this w) = None ->
  on_touchmove event (mkTouchEvent [t]) w = (w, mkHandled true true Normal).
Proof.
  intros Hp Hm. rewrite claimed_move_pans by done.
  unfold handleHorizontalPan. by rewrite Hm.
Qed.

Lemma claimed_move_without_model_witness :
  on_touchmove None (mkTouchEvent [mkTouch 180 100]) claimed_unloaded
  = (claimed_unloaded, mkHandled true true Normal).
Proof.
  assert (Hp : phase claimed_unloaded = ClaimedHorizontal) by reflexivity.
  assert (Hm : model (this claimed_unloaded) = None) by reflexivity.
  exact (claimed_move_without_model claimed_unloaded None (mkTouch 180 100) Hp Hm).
Defined.

(** X5: when the ambient [event] is [undefined] while a claimed move is
    handled, [handleHorizontalPan] turns the model and then throws: the
    reference X keeps its value, so the next move turns the model by its
    whole offset from that same reference again. *)
Theorem claimed_move_without_ambient_event
    (w : World) (m : nat) (t1 t2 : Touch) :
  phase w = ClaimedHorizontal ->
  model (this w) = Some m ->
  let turn (from to : R) (r : number) := nadd r (Finite ((to - from) * 0.01)) in
  let first := on_touchmove None (mkTouchEvent [t1]) w in
  let second := on_touchmove None (mkTouchEvent [t2]) (fst first) in
  snd first = mkHandled true true Throw
  /\ touchStartX (this (fst first)) = touchStartX (this w)
  /\ rotation_y <$> installed (fst first)
     = turn (touchStartX (this w)) (clientX t1) <$> (rotation_y <$> installed w)
  /\ snd second = mkHandled true true Throw
  /\ touchStartX (this (fst second)) = touchStartX (this w)
  /\ rotation_y <$> installed (fst second)
     = turn (touchStartX (this w)) (clientX t2)
         <$> (turn (touchStartX (this w)) (clientX t1) <$> (rotation_y <$> installed w)).
Proof.
  intros Hp Hm turn first second.
  assert (H1 : first =
               (update_object m
                  (fun o => set_rotation_y
                              (nadd (rotation_y o)
                                    (Finite ((clientX t1 - touchStartX (this w)) * 0.01))) o)
                  w, mkHandled true true Throw)).
  { subst first. rewrite claimed_move_pans by done.
    unfold handleHorizontalPan. by rewrite Hm. }
  assert (Hp1 : phase (fst first) = ClaimedHorizontal) by (by rewrite H1).
  assert (Hm1 : model (this (fst first)) = Some m) by (by rewrite H1).
  assert (H2 : second =
               (update_object m
                  (fun o => set_rotation_y
                              (nadd (rotation_y o)
                                    (Finite ((clientX t2 - touchStartX (this (fst first)))
                                             * 0.01))) o)
                  (fst first), mkHandled true true Throw)).
  { subst second. rewrite claimed_move_pans by done.
    unfold handleHorizontalPan. by rewrite Hm1. }
  rewrite H2, H1. unfold installed. simpl. rewrite Hm. simpl.
  rewrite !list_lookup_alter_eq.
  destruct (heap w !! m) as [o|]; simpl; repeat split; done.
Qed.

Lemma claimed_move_without_ambient_event_witness :
  touchStartX (this (fst (on_touchmove None (mkTouchEvent [mkTouch 130 105]) claimed)))
  = touchStartX (this claimed).
Proof.
  assert (Hp : phase claimed = ClaimedHorizontal) by reflexivity.
  assert (Hm : model (this claimed) = Some 2%nat) by reflexivity.
  exact (proj1 (proj2 (claimed_move_without_ambient_event
                         claimed 2%nat (mkTouch 130 105) (mkTouch 140 105) Hp Hm))).
Defined.

Lemma last_cons {A : Type} (a d : A) (l : list A) : List.last (a :: l) d = List.last l a.
Proof.
  revert a d. induction l as [|b l IH]; intros a d; [reflexivity|].
  change (List.last (a :: b :: l) d) with (List.last (b :: l) d).
  by rewrite (IH b d), (IH b a).
Qed.

Lemma deciding_move_claims_without_model
    (w : World) (event : option TouchEvent) (t : Touch) :
  touchMoveStarted (this w) = false ->
  model (this w) = None ->
  Rabs (clientX t - touchStartX (this w)) > Rabs (clientY t - touchStartY (this w)) * 2 ->
  Rabs (clientX t - touchStartX (this w)) > touchThreshold (this w) ->
  on_touchmove event (mkTouchEvent [t]) w =
    (update_this (set_isHorizontalPan true) (update_this (set_touchMoveStarted true) w),
     mkHandled true true Normal).
Proof.
  intros Hs Hm H2 Ht. rewrite deciding_move_claims by done.
  unfold handleHorizontalPan.
  destruct w as [th hp dp fr inf nr ds cs rl tl nw cw ch]. simpl in *.
  destruct th. simpl in *. subst. reflexivity.
Qed.

Lemma claimed_unloaded_world :
  on_touchmove None (mkTouchEvent [mkTouch 120 105])
    (on_touchstart (mkTouchEvent [mkTouch 100 100]) idle)
  = (claimed_unloaded, mkHandled true true Normal).
Proof.
  unfold claimed_unloaded.
  apply (deciding_move_claims_without_model
           (on_touchstart (mkTouchEvent [mkTouch 100 100]) idle)).
  - reflexivity.
  - reflexivity.
  - assert (Hx : touchStartX (this (on_touchstart (mkTouchEvent [mkTouch 100 100]) idle))
                 = 100) by reflexivity.
    assert (Hy : touchStartY (this (on_touchstart (mkTouchEvent [mkTouch 100 100]) idle))
                 = 100) by reflexivity.
    rewrite Hx, Hy. simpl clientX; simpl clientY. rewrite !Rabs_pos_eq by lra. lra.
  - assert (Hx : touchStartX (this (on_touchstart (mkTouchEvent [mkTouch 100 100]) idle))
                 = 100) by reflexivity.
    assert (Ht : touchThreshold (this (on_touchstart (mkTouchEvent [mkTouch 100 100]) idle))
                 = 15) by reflexivity.
    rewrite Hx, Ht. simpl clientX. rewrite Rabs_pos_eq by lra. lra.
Qed.

Lemma claimed_dispatch (w : World) (t : Touch) (m : nat) :
  touch_listeners w = true ->
  phase w = ClaimedHorizontal ->
  model (this w) = Some m ->
  fst (dispatchTouch (TouchMove (mkTouchEvent [t])) w) =
    update_object m
      (fun o => set_rotation_y
                  (nadd (rotation_y o)
                        (Finite ((clientX t - touchStartX (this w)) * 0.01))) o) w.
Proof.
  intros Hl Hp Hm. unfold dispatchTouch. rewrite Hl.
  by rewrite (claimed_move_undefined_event w t m Hp Hm).
Qed.

(** X6: over the one-finger moves that reach the canvas during a claimed
    gesture, the reference X stays what it was, and every move turns the
    model by 0.01 times its own offset from that reference: the rotation
    grows by 0.01 times the sum of the offsets of all the samples, and the
    gesture stays claimed. *)
Theorem claimed_gesture_adds_offsets_from_reference
    (ts : list Touch) (w : World) (m : nat) (r : R) :
  touch_listeners w = true ->
  phase w = ClaimedHorizontal ->
  model (this w) = Some m ->
  rotation_y <$> installed w = Some (Finite r) ->
  let after := gesture (List.map (fun t => TouchMove (mkTouchEvent [t])) ts) w in
  rotation_y <$> installed after
  = Some (Finite (r + sum_of_offsets (touchStartX (this w)) (List.map clientX ts) * 0.01))
  /\ touchStartX (this after) = touchStartX (this w)
  /\ phase after = ClaimedHorizontal.
Proof.
  revert w r. induction ts as [|t ts IH]; intros w r Hl Hp Hm Hr after; subst after.
  - simpl. rewrite Hr. repeat split; try done. do 2 f_equal. lra.
  - cbn [List.map gesture]. rewrite (claimed_dispatch w t m Hl Hp Hm).
    set (w1 := update_object m _ w).
    assert (Hl1 : touch_listeners w1 = true) by exact Hl.
    assert (Hp1 : phase w1 = ClaimedHorizontal) by exact Hp.
    assert (Hm1 : model (this w1) = Some m) by exact Hm.
    assert (Hx1 : touchStartX (this w1) = touchStartX (this w)) by reflexivity.
    assert (Hr1 : rotation_y <$> installed w1
                  = Some (Finite (r + (clientX t - touchStartX (this w)) * 0.01))).
    { unfold installed in *. rewrite Hm1. rewrite Hm in Hr.
      change (heap w1) with (alter (fun o => set_rotation_y
                 (nadd (rotation_y o)
                       (Finite ((clientX t - touchStartX (this w)) * 0.01))) o) m (heap w)).
      rewrite list_lookup_alter_eq.
      destruct (heap w !! m) as [o|]; [|discriminate]. simpl in *.
      injection Hr as ->. reflexivity. }
    destruct (IH w1 _ Hl1 Hp1 Hm1 Hr1) as (IH1 & IH2 & IH3).
    rewrite IH1, IH2, IH3, Hx1. cbn [sum_of_offsets]. repeat split.
    do 2 f_equal. lra.
Qed.

Lemma claimed_gesture_adds_offsets_from_reference_witness :
  rotation_y <$> installed
                   (gesture (List.map (fun t => TouchMove (mkTouchEvent [t]))
                               [mkTouch 150 105; mkTouch 90 105; mkTouch 135 105]) claimed)
  = Some (Finite (0 + (120 - 100) * 0.01
                  + sum_of_offsets (touchStartX (this claimed))
                      (List.map clientX [mkTouch 150 105; mkTouch 90 105; mkTouch 135 105])
                    * 0.01))
  /\ touchStartX
       (this (gesture (List.map (fun t => TouchMove (mkTouchEvent [t]))
                         [mkTouch 150 105; mkTouch 90 105; mkTouch 135 105]) claimed))
     = touchStartX (this claimed).
Proof.
  assert (Hl : touch_listeners claimed = true) by reflexivity.
  assert (Hp : phase claimed = ClaimedHorizontal) by reflexivity.
  assert (Hm : model (this claimed) = Some 2%nat) by reflexivity.
  assert (Hr : rotation_y <$> installed claimed
               = Some (Finite (0 + (120 - 100) * 0.01))) by reflexivity.
  pose proof (claimed_gesture_adds_offsets_from_reference
                [mkTouch 150 105; mkTouch 90 105; mkTouch 135 105]
                claimed 2%nat _ Hl Hp Hm Hr) as H.
  exact (conj (proj1 H) (proj1 (proj2 H))).
Defined.

(** ** The render loop *)

(** What one run of [animate] does to the model and to the mixer. *)
Lemma animate_effect (w : World) :
  heap (animate w) =
    match isAutoRotate (this w), model (this w) with
    | true, Some m =>
        alter (fun o => set_rotation_y (nadd (rotation_y o) (rotateSpeed (this w))) o)
              m (heap w)
    | _, _ => heap w
    end
  /\ animationMixer (this (animate w)) =
       match animationMixer (this w) with
       | Some mixer =>
           Some (mkMixer (mixer_root mixer) (playing mixer)
                   (nadd (mixer_time mixer)
                      (Finite (if running (clock (this w))
                               then (now w - oldTime (clock (this w))) / 1000
                               else 0))))
       | None => None
       end
  /\ clock (this (animate w)) =
       match animationMixer (this w) with
       | Some _ => mkClock true (now w)
       | None => clock (this w)
       end
  /\ isAutoRotate (this (animate w)) = isAutoRotate (this w)
  /\ rotateSpeed (this (animate w)) = rotateSpeed (this w)
  /\ model (this (animate w)) = model (this w)
  /\ now (animate w) = now w.
Proof.
  destruct w as [t hp dp fr inf nr ds cs rl tl nw cw ch].
  destruct t as [attrs sc cam ren md mx [going ot] ar rs ini td tx ty thr hpn tms
                 wd hg mu bg ms].
  destruct ar, md as [m|], mx as [mixer|], going, ren as [rd|], sc as [s|], cam as [c|];
    repeat split; reflexivity.
Qed.

Lemma tick_running (t : R) (w : World) (n : nat) :
  frames w = S n -> tick t w = animate (set_now t (set_frames n w)).
Proof. intros H. unfold tick. by rewrite H. Qed.

(** X7: with [auto-rotate] and a model installed, every tick turns the model
    by [rotateSpeed]: after [n] ticks the rotation about Y has grown by
    [n * rotateSpeed], whatever the times of the ticks. *)
Theorem auto_rotation_adds_speed_per_tick
    (ts : list R) (w : World) (m : nat) (speed r : R) :
  frames w <> 0%nat ->
  isAutoRotate (this w) = true ->
  model (this w) = Some m ->
  rotateSpeed (this w) = Finite speed ->
  rotation_y <$> installed w = Some (Finite r) ->
  rotation_y <$> installed (ticks ts w) = Some (Finite (r + INR (length ts) * speed)).
Proof.
  revert w r. induction ts as [|t ts IH]; intros w r Hf Ha Hm Hs Hr.
  - simpl. rewrite Hr. do 2 f_equal. lra.
  - destruct (frames w) as [|n] eqn:Hn; [done|].
    cbn [ticks]. rewrite (tick_running t w n Hn).
    set (w0 := set_now t (set_frames n w)).
    destruct (animate_effect w0) as (Hh & _ & _ & Ha' & Hs' & Hm' & _).
    destruct (animate_schedules w0) as (Hf' & _).
    change (isAutoRotate (this w0)) with (isAutoRotate (this w)) in *.
    change (model (this w0)) with (model (this w)) in *.
    change (rotateSpeed (this w0)) with (rotateSpeed (this w)) in *.
    change (heap w0) with (heap w) in *.
    rewrite Ha, Hm, Hs in Hh.
    rewrite (IH (animate w0) (r + speed)).
    + cbn [length]. rewrite S_INR. do 2 f_equal. lra.
    + rewrite Hf'. discriminate.
    + by rewrite Ha'.
    + by rewrite Hm'.
    + by rewrite Hs'.
    + unfold installed in *. rewrite Hm', Hm, Hh. rewrite Hm in Hr.
      rewrite list_lookup_alter_eq.
      destruct (heap w !! m) as [o|]; [|discriminate]. simpl in *.
      injection Hr as ->. reflexivity.
Qed.

Lemma auto_rotation_adds_speed_per_tick_witness :
  rotation_y <$> installed (ticks [16; 33; 50] spinning)
  = Some (Finite (0 + INR 3 * (5 * powerRZ 10 (-3)))).
Proof.
  assert (Hf1 : frames spinning = 1%nat) by reflexivity.
  assert (Hf : frames spinning <> 0%nat) by (rewrite Hf1; discriminate).
  assert (Ha : isAutoRotate (this spinning) = true) by reflexivity.
  assert (Hm : model (this spinning) = Some 2%nat) by reflexivity.
  assert (Hs : rotateSpeed (this spinning) = Finite (5 * powerRZ 10 (-3))) by reflexivity.
  assert (Hr : rotation_y <$> installed spinning = Some (Finite 0)) by reflexivity.
  exact (auto_rotation_adds_speed_per_tick [16; 33; 50] spinning 2%nat _ 0 Hf Ha Hm Hs Hr).
Defined.

(** X8: without [auto-rotate] and without an animation mixer the render
    loop never writes to the scene graph, however many ticks pass. *)
Theorem ticks_without_auto_rotation (ts : list R) (w : World) :
  isAutoRotate (this w) = false ->
  animationMixer (this w) = None ->
  heap (ticks ts w) = heap w.
Proof.
  revert w. induction ts as [|t ts IH]; intros w Ha Hx; [reflexivity|].
  cbn [ticks]. destruct (frames w) as [|n] eqn:Hn.
  - unfold tick. rewrite Hn. by apply IH.
  - rewrite (tick_running t w n Hn).
    set (w0 := set_now t (set_frames n w)).
    destruct (animate_effect w0) as (Hh & Hx' & _ & Ha' & _).
    change (isAutoRotate (this w0)) with (isAutoRotate (this w)) in *.
    change (animationMixer (this w0)) with (animationMixer (this w)) in *.
    change (heap w0) with (heap w) in *.
    rewrite Ha in Hh. rewrite Hx in Hx'.
    rewrite IH; [exact Hh | by rewrite Ha' | exact Hx'].
Qed.

Lemma ticks_without_auto_rotation_witness :
  heap (ticks [16; 33; 50] loaded) = heap loaded.
Proof.
  assert (Ha : isAutoRotate (this loaded) = false) by reflexivity.
  assert (Hx : animationMixer (this loaded) = None) by reflexivity.
  exact (ticks_without_auto_rotation [16; 33; 50] loaded Ha Hx).
Defined.

Lemma mixer_ticks_running (ts : list R) (w : World) (mixer : AnimationMixer) (mt : R) :
  frames w <> 0%nat ->
  animationMixer (this w) = Some mixer ->
  mixer_time mixer = Finite mt ->
  running (clock (this w)) = true ->
  mixer_time <$> animationMixer (this (ticks ts w))
  = Some (Finite (mt + (List.last ts (oldTime (clock (this w)))
                        - oldTime (clock (this w))) / 1000)).
Proof.
  revert w mixer mt. induction ts as [|t ts IH]; intros w mixer mt Hf Hx Ht Hr.
  - simpl. rewrite Hx. simpl. rewrite Ht. do 2 f_equal. lra.
  - destruct (frames w) as [|n] eqn:Hn; [done|].
    cbn [ticks]. rewrite (tick_running t w n Hn).
    set (w0 := set_now t (set_frames n w)).
    destruct (animate_effect w0) as (_ & Hmx & Hck & _).
    destruct (animate_schedules w0) as (Hf' & _).
    change (animationMixer (this w0)) with (animationMixer (this w)) in *.
    change (clock (this w0)) with (clock (this w)) in *.
    change (now w0) with t in *.
    rewrite Hx in Hmx, Hck. rewrite Hr, Ht in Hmx. cbn [nadd] in Hmx.
    rewrite (IH (animate w0) _ _ ltac:(rewrite Hf'; discriminate) Hmx eq_refl).
    + rewrite Hck. cbn [oldTime]. rewrite last_cons. do 2 f_equal. lra.
    + by rewrite Hck.
Qed.

(** X9: an attached animation mixer advances by the wall-clock time, in
    seconds, between the ticks: over a series of ticks it gains the time
    from the start of the clock to the last tick, whatever the ticks in
    between.  The clock starts at its first use, so the first update after
    that adds nothing. *)
Theorem animation_advances_by_wall_clock
    (t : R) (ts : list R) (w : World) (mixer : AnimationMixer) (mt : R) :
  frames w <> 0%nat ->
  animationMixer (this w) = Some mixer ->
  mixer_time mixer = Finite mt ->
  mixer_time <$> animationMixer (this (ticks (t :: ts) w))
  = Some (Finite (mt + (List.last ts t
                        - (if running (clock (this w))
                           then oldTime (clock (this w)) else t)) / 1000)).
Proof.
  intros Hf Hx Ht.
  destruct (running (clock (this w))) eqn:Hr.
  - rewrite (mixer_ticks_running (t :: ts) w mixer mt Hf Hx Ht Hr).
    by rewrite last_cons.
  - destruct (frames w) as [|n] eqn:Hn; [done|].
    cbn [ticks]. rewrite (tick_running t w n Hn).
    set (w0 := set_now t (set_frames n w)).
    destruct (animate_effect w0) as (_ & Hmx & Hck & _).
    destruct (animate_schedules w0) as (Hf' & _).
    change (animationMixer (this w0)) with (animationMixer (this w)) in *.
    change (clock (this w0)) with (clock (this w)) in *.
    change (now w0) with t in *.
    rewrite Hx in Hmx, Hck. rewrite Hr, Ht in Hmx. cbn [nadd] in Hmx.
    rewrite (mixer_ticks_running ts (animate w0) _ _
               ltac:(rewrite Hf'; discriminate) Hmx eq_refl).
    + rewrite Hck. cbn [oldTime]. do 2 f_equal. lra.
    + by rewrite Hck.
Qed.

Lemma animation_advances_by_wall_clock_witness :
  mixer_time <$> animationMixer (this (ticks [16; 33; 50] afterB))
  = Some (Finite (0 + (50 - 16) / 1000)).
Proof.
  assert (Hf1 : frames afterB = 1%nat) by reflexivity.
  assert (Hf : frames afterB <> 0%nat) by (rewrite Hf1; discriminate).
  assert (Hx : animationMixer (this afterB) = Some (mkMixer 2 ["walk"%string] (Finite 0)))
    by reflexivity.
  assert (Hr : running (clock (this afterB)) = false) by reflexivity.
  pose proof (animation_advances_by_wall_clock 16 [33; 50] afterB _ 0 Hf Hx eq_refl) as H.
  rewrite Hr in H. exact H.
Defined.

(** ** Connecting and disconnecting *)

Lemma initScene_counts (w : World) :
  frames (initScene w) = S (frames w)
  /\ resize_listeners (initScene w) = resize_listeners w
  /\ touch_listeners (initScene w) = touch_listeners w
  /\ isTouchDevice (this (initScene w)) = isTouchDevice (this w)
  /\ model (this (initScene w)) = model (this w)
  /\ modelUrl (this (initScene w)) = modelUrl (this w)
  /\ scene_children <$> scene (this (initScene w))
     = Some [length (heap w); S (length (heap w))]
  /\ background <$> scene (this (initScene w))
     = Some (match backgroundColor (this w) with
             | Some s => background_of s
             | None => None
             end)
  /\ camera_position <$> camera (this (initScene w)) = Some (vec 0 0 3)
  /\ is_Some (renderer (this (initScene w))).
Proof.
  destruct w as [t hp dp fr inf nr ds cs rl tl nw cw ch].
  destruct t as [attrs sc cam ren md mx [going ot] ar rs ini td tx ty thr hpn tms
                 wd hg mu bg ms].
  destruct ar, md as [m|], mx as [mixer|], going;
    (repeat split; try reflexivity;
     try (cbn; rewrite length_app, Nat.add_1_r; reflexivity);
     exists (mkRenderer 0 1); reflexivity).
Qed.

(** What [connectedCallback] does to the loop and to the listeners. *)
Lemma connectedCallback_counts (w : World) :
  frames (fst (connectedCallback w)) = S (frames w)
  /\ resize_listeners (fst (connectedCallback w)) = S (resize_listeners w)
  /\ touch_listeners (fst (connectedCallback w))
     = (isTouchDevice (this w) || touch_listeners w)%bool
  /\ model (this (fst (connectedCallback w))) = model (this w)
  /\ scene_children <$> scene (this (fst (connectedCallback w)))
     = Some [length (heap w); S (length (heap w))].
Proof.
  unfold connectedCallback. cbv zeta.
  set (w1 := update_this _ w).
  destruct (initScene_counts w1) as (Hf & Hr & Ht & Hd & Hm & _ & Hs & _ & _ & Hren).
  change (frames w1) with (frames w) in Hf.
  change (resize_listeners w1) with (resize_listeners w) in Hr.
  change (touch_listeners w1) with (touch_listeners w) in Ht.
  change (isTouchDevice (this w1)) with (isTouchDevice (this w)) in Hd.
  change (model (this w1)) with (model (this w)) in Hm.
  change (heap w1) with (heap w) in Hs.
  revert Hf Hr Ht Hd Hm Hs Hren. generalize (initScene w1). intros w0.
  intros Hf Hr Ht Hd Hm Hs [r Hren].
  set (w2 := match modelUrl (this w0) with
             | Some (String _ _ as url) => loadModel url w0
             | _ => w0
             end).
  assert (H2 : this w2 = this w0 /\ frames w2 = frames w0
               /\ resize_listeners w2 = resize_listeners w0
               /\ touch_listeners w2 = touch_listeners w0).
  { subst w2. destruct (modelUrl (this w0)) as [[|a url]|]; repeat split. }
  destruct H2 as (Ht2 & Hf2 & Hr2 & Hl2).
  unfold setupTouchEvents.
  change (this (set_resize_listeners (S (resize_listeners w2)) w2)) with (this w2).
  rewrite Ht2, Hd, Hren.
  destruct (isTouchDevice (this w)); simpl;
    rewrite ?Ht2, ?Hf2, ?Hr2, ?Hl2, Hf, Hr, Hm, Hs, ?Ht; repeat split.
Qed.

(** X10: every connection of the element adds a render loop and a resize
    listener, and a disconnection takes neither away: after connecting,
    disconnecting and connecting again two frames are requested at a time
    and two resize listeners are registered. *)
Theorem reconnection_adds_a_second_loop (w : World) :
  frames (disconnectedCallback (fst (connectedCallback w))) = S (frames w)
  /\ resize_listeners (disconnectedCallback (fst (connectedCallback w)))
     = S (resize_listeners w)
  /\ frames (fst (connectedCallback (disconnectedCallback (fst (connectedCallback w)))))
     = S (S (frames w))
  /\ resize_listeners
       (fst (connectedCallback (disconnectedCallback (fst (connectedCallback w)))))
     = S (S (resize_listeners w)).
Proof.
  destruct (connectedCallback_counts w) as (Hf & Hr & _).
  destruct (disconnectedCallback_keeps_loop (fst (connectedCallback w))) as (Hdf & _).
  assert (Hdr : forall v, resize_listeners (disconnectedCallback v) = resize_listeners v).
  { intros v. unfold disconnectedCallback, disposeScene.
    destruct (renderer (this v)); simpl; destruct (scene (this v)); reflexivity. }
  destruct (connectedCallback_counts (disconnectedCallback (fst (connectedCallback w))))
    as (Hf2 & Hr2 & _).
  rewrite Hf2, Hr2, Hdf, Hdr, Hf, Hr. repeat split.
Qed.

(** X11: [connectedCallback] builds a new scene that holds the two lights
    only, while [this.model] keeps the model installed before: after a
    reconnection that model is no longer in the scene that is drawn. *)
Theorem reconnection_leaves_model_out_of_scene (w : World) (m : nat) :
  model (this w) = Some m ->
  (m < length (heap w))%nat ->
  model (this (fst (connectedCallback w))) = Some m
  /\ exists s, scene (this (fst (connectedCallback w))) = Some s
               /\ scene_children s = [length (heap w); S (length (heap w))]
               /\ ~ In m (scene_children s).
Proof.
  intros Hm Hlt.
  destruct (connectedCallback_counts w) as (_ & _ & _ & Hm' & Hs).
  split; [by rewrite Hm'|].
  destruct (scene (this (fst (connectedCallback w)))) as [s|]; [|discriminate].
  simpl in Hs. injection Hs as Hs. exists s. repeat split; [exact Hs|].
  rewrite Hs. intros [H|[H|[]]]; lia.
Qed.

Lemma reconnection_leaves_model_out_of_scene_witness :
  model (this (fst (connectedCallback (disconnectedCallback loaded)))) = Some 2%nat.
Proof.
  assert (Hm : model (this (disconnectedCallback loaded)) = Some 2%nat) by reflexivity.
  assert (Hl : length (heap (disconnectedCallback loaded)) = 3%nat) by reflexivity.
  assert (Hlt : (2 < length (heap (disconnectedCallback loaded)))%nat)
    by (rewrite Hl; lia).
  exact (proj1 (reconnection_leaves_model_out_of_scene
                  (disconnectedCallback loaded) 2%nat Hm Hlt)).
Defined.

(** X12: on a device without touch input [setupTouchEvents] registers no
    listener, so no touch input reaches the element: it changes nothing and
    leaves every event alone. *)
Theorem no_touch_listeners_without_touch_device (w : World) (i : TouchInput) :
  isTouchDevice (this w) = false ->
  touch_listeners w = false ->
  dispatchTouch i (fst (connectedCallback w)) = (fst (connectedCallback w), untouched).
Proof.
  intros Hd Hl.
  destruct (connectedCallback_counts w) as (_ & _ & Ht & _).
  rewrite Hd, Hl in Ht. unfold dispatchTouch. by rewrite Ht.
Qed.

Lemma no_touch_listeners_without_touch_device_witness :
  dispatchTouch (TouchMove (mkTouchEvent [mkTouch 300 0])) (fst (connectedCallback desktop))
  = (fst (connectedCallback desktop), untouched).
Proof.
  exact (no_touch_listeners_without_touch_device
           desktop (TouchMove (mkTouchEvent [mkTouch 300 0])) eq_refl eq_refl).
Defined.

(** ** Loading, again *)

Lemma filter_not_member (m : nat) (l : list nat) :
  ~ In m l -> List.filter (fun c => negb (Nat.eqb c m)) l = l.
Proof.
  induction l as [|a l IH]; intros H; [reflexivity|].
  simpl. destruct (Nat.eqb_spec a m) as [->|Hne].
  - exfalso. apply H. by left.
  - simpl. rewrite IH; [reflexivity|]. intros Hin. apply H. by right.
Qed.

Lemma onLoad_one_model (base : list nat) (w : World) (gltf : GLTF) (box : Box3) :
  one_model base w ->
  one_model base (fst (onLoad gltf box w))
  /\ model (this (fst (onLoad gltf box w))) = Some (length (heap w))
  /\ heap (fst (onLoad gltf box w)) = heap w ++ [placed gltf box w]
  /\ disposed (fst (onLoad gltf box w)) = disposed w.
Proof.
  intros ((s & c & Hs & Hc & Hch) & Hbase & Hmodel).
  destruct (onLoad_installs w gltf box s c Hs Hc)
    as (_ & Hm & Hh & Hs' & Hc' & _ & Hd & _).
  repeat split; try done.
  - eexists _, _. repeat split; [exact Hs' | exact Hc' |].
    rewrite Hm. unfold scene_add. cbn [scene_children]. f_equal.
    destruct (model (this w)) as [previous|] eqn:Hp; [|by rewrite Hch, app_nil_r].
    destruct (Hmodel previous eq_refl) as [_ Hnot].
    unfold scene_remove. cbn [scene_children]. rewrite Hch, List.filter_app.
    rewrite (filter_not_member previous base Hnot). simpl.
    by rewrite Nat.eqb_refl, app_nil_r.
  - intros r Hr. rewrite Hh, length_app. specialize (Hbase r Hr). simpl. lia.
  - rewrite Hm in H. injection H as <-. rewrite Hh, length_app. simpl. lia.
  - rewrite Hm in H. injection H as <-. intros Hin. specialize (Hbase _ Hin). lia.
Qed.

(** X13: whatever the number of models loaded one after the other, the
    scene ends with the children it had besides the model plus the model
    loaded last, which is [this.model]; every load adds one object to the
    scene graph and none calls [dispose()]. *)
Theorem loads_keep_one_model_in_scene
    (answers : list (GLTF * Box3)) (gltf : GLTF) (box : Box3)
    (base : list nat) (w : World) :
  one_model base w ->
  let w' := loads (answers ++ [(gltf, box)]) w in
  let m := (length (heap w) + length answers)%nat in
  model (this w') = Some m
  /\ scene_children <$> scene (this w') = Some (base ++ [m])
  /\ asset <$> installed w' = Some (asset (gltf_scene gltf))
  /\ length (heap w') = S m
  /\ disposed w' = disposed w.
Proof.
  revert w. induction answers as [|[g b] answers IH]; intros w Hone; cbv zeta.
  - cbn [app loads length]. rewrite Nat.add_0_r.
    destruct (onLoad_one_model base w gltf box Hone)
      as (((s & c & Hs & _ & Hch) & _) & Hm & Hh & Hd).
    rewrite Hm in Hch. unfold installed. rewrite Hm, Hh, Hs, Hd.
    rewrite list_lookup_middle by reflexivity.
    rewrite length_app, Nat.add_1_r. cbn [fmap option_fmap option_map].
    rewrite Hch. repeat split.
  - cbn [app loads length].
    destruct (onLoad_one_model base w g b Hone) as (Hone' & _ & Hh & Hd).
    specialize (IH (fst (onLoad g b w)) Hone'). cbv zeta in IH.
    rewrite Hh, length_app, Hd in IH. cbn [length] in IH.
    replace (length (heap w) + 1 + length answers)%nat
      with (length (heap w) + S (length answers))%nat in IH by lia.
    exact IH.
Qed.

Lemma loads_keep_one_model_in_scene_witness :
  scene_children <$> scene (this (loads ([(modelA, box222); (modelB, box222)]
                                          ++ [(modelA, box222)]) idle))
  = Some ([0; 1] ++ [length (heap idle) + 2])%nat.
Proof.
  assert (Hone : one_model [0; 1]%nat idle).
  { repeat split.
    - exists (mkScene None [0; 1]%nat),
        (mkCamera (Finite 45) (ndiv (Finite 400) (Finite 300)) (vec 0 0 3)).
      repeat split; reflexivity.
    - assert (Hl : length (heap idle) = 2%nat) by reflexivity.
      rewrite Hl. intros r [<-|[<-|[]]]; lia.
    - discriminate.
    - discriminate. }
  exact (proj1 (proj2 (loads_keep_one_model_in_scene
                         [(modelA, box222); (modelB, box222)] modelA box222
                         [0; 1]%nat idle Hone))).
Defined.

(** X14: when a model without animation replaces an animated one, the mixer
    of the old model stays attached: [this.animationMixer] still belongs to
    the object that has left the scene, not to the model installed. *)
Theorem mixer_outlives_its_model
    (w : World) (gltf : GLTF) (box : Box3) (s : Scene) (c : PerspectiveCamera)
    (old : nat) (mixer : AnimationMixer) :
  scene (this w) = Some s ->
  camera (this w) = Some c ->
  model (this w) = Some old ->
  (old < length (heap w))%nat ->
  animationMixer (this w) = Some mixer ->
  mixer_root mixer = old ->
  animations gltf = [] ->
  animationMixer (this (fst (onLoad gltf box w))) = Some mixer
  /\ model (this (fst (onLoad gltf box w))) <> Some (mixer_root mixer)
  /\ exists s', scene (this (fst (onLoad gltf box w))) = Some s'
                /\ ~ In (mixer_root mixer) (scene_children s').
Proof.
  intros Hs Hc Hm Hlt Hx Hroot Ha.
  destruct (onLoad_installs w gltf box s c Hs Hc) as (_ & Hm' & _ & Hs' & _ & Hx' & _).
  rewrite Ha, Hx in Hx'. rewrite Hm in Hs'. rewrite Hroot.
  split; [exact Hx'|]. split.
  - rewrite Hm'. intros H. injection H as H. lia.
  - eexists. split; [exact Hs'|]. apply scene_replace_children. lia.
Qed.

Lemma mixer_outlives_its_model_witness :
  animationMixer (this (fst (onLoad modelA box222 afterB)))
  = Some (mkMixer 2 ["walk"%string] (Finite 0)).
Proof.
  assert (Hs : scene (this afterB) = Some (mkScene None [0; 1; 2]%nat)) by reflexivity.
  assert (Hc : camera (this afterB)
               = Some (mkCamera (Finite 45) (ndiv (Finite 400) (Finite 300))
                         (mkVector3 (Finite 0) (Finite 0)
                            (camera_distance (getSize box222) (Finite 45)))))
    by reflexivity.
  assert (Hm : model (this afterB) = Some 2%nat) by reflexivity.
  assert (Hl : length (heap afterB) = 3%nat) by reflexivity.
  assert (Hlt : (2 < length (heap afterB))%nat) by (rewrite Hl; lia).
  assert (Hx : animationMixer (this afterB) = Some (mkMixer 2 ["walk"%string] (Finite 0)))
    by reflexivity.
  exact (proj1 (mixer_outlives_its_model afterB modelA box222 _ _ 2%nat _
                  Hs Hc Hm Hlt Hx eq_refl eq_refl)).
Defined.

(** ** Attributes *)

Lemma observed (name : string) :
  name = "model-url"%string \/ name = "background"%string \/ name = "auto-rotate"%string
  \/ name = "rotate-speed"%string \/ name = "scale"%string ->
  bool_decide (name ∈ ["model-url"; "background"; "auto-rotate"; "rotate-speed";
                       "scale"]%string) = true.
Proof.
  intros H. apply bool_decide_eq_true_2, list_elem_of_In.
  destruct H as [-> | [-> | [-> | [-> | ->]]]]; simpl; tauto.
Qed.

(** What the host's write of an observed attribute amounts to. *)
Lemma setAttribute_observed (name value : string) (w : World) :
  name = "model-url"%string \/ name = "background"%string \/ name = "auto-rotate"%string
  \/ name = "rotate-speed"%string \/ name = "scale"%string ->
  setAttribute name value w =
    attributeChangedCallback name (getAttribute name w) (Some value)
      (update_this (set_attributes (<[name := value]> (attributes (this w)))) w).
Proof. intros H. unfold setAttribute. by rewrite (observed name H). Qed.

Lemma onLoad_keeps_attributes (w : World) (gltf : GLTF) (box : Box3) :
  isInitialized (this (fst (onLoad gltf box w))) = isInitialized (this w)
  /\ attributes (this (fst (onLoad gltf box w))) = attributes (this w).
Proof.
  destruct w as [t hp dp fr inf nr ds cs rl tl nw cw ch].
  destruct t as [attrs sc cam ren md mx ck ar rs ini td tx ty thr hpn tms wd hg mu bg ms].
  unfold onLoad, with_scene, with_camera, bind.
  destruct md as [previous|], sc as [s|], cam as [c|];
    try (split; reflexivity);
    destruct (animations gltf); split; reflexivity.
Qed.

Lemma initScene_flags (w : World) :
  isAutoRotate (this (initScene w)) = isAutoRotate (this w)
  /\ isTouchDevice (this (initScene w)) = isTouchDevice (this w)
  /\ is_Some (renderer (this (initScene w))).
Proof.
  destruct w as [t hp dp fr inf nr ds cs rl tl nw cw ch].
  destruct t as [attrs sc cam ren md mx [going ot] ar rs ini td tx ty thr hpn tms
                 wd hg mu bg ms].
  destruct ar, md as [m|], mx as [mixer|], going;
    (repeat split; try reflexivity; exists (mkRenderer 0 1); reflexivity).
Qed.

(** X15: the scale of the model is that of the [scale] attribute whether the
    attribute is written before the model arrives or after it: the success
    callback reads the attribute, and a later change is applied to the
    model installed. *)
Theorem scale_attribute_and_load_commute
    (w : World) (gltf : GLTF) (box : Box3) (s : Scene) (c : PerspectiveCamera)
    (value : string) :
  isInitialized (this w) = true ->
  scene (this w) = Some s ->
  camera (this w) = Some c ->
  let v := parseFloat (or_default (Some value) "1.0") in
  scale <$> installed (fst (onLoad gltf box (setAttribute "scale" value w)))
  = Some (mkVector3 v v v)
  /\ scale <$> installed (setAttribute "scale" value (fst (onLoad gltf box w)))
     = Some (mkVector3 v v v).
Proof.
  intros Hi Hs Hc v. split.
  - rewrite setAttribute_observed by tauto.
    set (w1 := update_this _ w).
    assert (H1 : exists w2, attributeChangedCallback "scale" (getAttribute "scale" w)
                              (Some value) w1 = w2
                            /\ scene (this w2) = Some s /\ camera (this w2) = Some c
                            /\ attributes (this w2) !! "scale"%string = Some value).
    { eexists. split; [reflexivity|].
      unfold attributeChangedCallback.
      change (isInitialized (this w1)) with (isInitialized (this w)). rewrite Hi.
      cbn [negb String.eqb Ascii.eqb Bool.eqb].
      change (model (this w1)) with (model (this w)).
      destruct (model (this w)); cbn; rewrite Hs, Hc, lookup_insert_eq; done. }
    destruct H1 as (w2 & -> & Hs2 & Hc2 & Ha2).
    destruct (onLoad_installs w2 gltf box s c Hs2 Hc2) as (_ & Hm & Hh & _).
    unfold installed. rewrite Hm, Hh, list_lookup_middle by reflexivity.
    unfold placed. rewrite Ha2. reflexivity.
  - destruct (onLoad_installs w gltf box s c Hs Hc) as (_ & Hm & Hh & _).
    destruct (onLoad_keeps_attributes w gltf box) as (Hi' & _).
    rewrite setAttribute_observed by tauto.
    set (w0 := fst (onLoad gltf box w)) in *.
    set (w1 := update_this _ w0).
    unfold attributeChangedCallback.
    change (isInitialized (this w1)) with (isInitialized (this w0)). rewrite Hi', Hi.
    cbn [negb String.eqb Ascii.eqb Bool.eqb].
    change (model (this w1)) with (model (this w0)). rewrite Hm.
    unfold installed, update_object. cbn.
    change (heap w1) with (heap w0). rewrite Hm, Hh.
    rewrite list_lookup_alter_eq, list_lookup_middle by reflexivity. reflexivity.
Qed.

Lemma scale_attribute_and_load_commute_witness :
  scale <$> installed (setAttribute "scale" "2.5" (fst (onLoad modelA box222 idle)))
  = Some (mkVector3 (parseFloat "2.5") (parseFloat "2.5") (parseFloat "2.5")).
Proof.
  assert (Hi : isInitialized (this idle) = true) by reflexivity.
  assert (Hs : scene (this idle) = Some (mkScene None [0; 1]%nat)) by reflexivity.
  assert (Hc : camera (this idle)
               = Some (mkCamera (Finite 45) (ndiv (Finite 400) (Finite 300)) (vec 0 0 3)))
    by reflexivity.
  exact (proj2 (scale_attribute_and_load_commute idle modelA box222 _ _ "2.5" Hi Hs Hc)).
Defined.

(** X16: on an initialised element a write of [model-url] issues a request
    exactly when the value is not empty and differs from the value the
    attribute had; the request is for the new value and takes the next
    number.  Writing the same value again, or the empty string, issues
    none. *)
Theorem model_url_change_loads_once (w : World) (url : string) :
  isInitialized (this w) = true ->
  ((url = EmptyString \/ getAttribute "model-url" w = Some url) ->
   inflight (setAttribute "model-url" url w) = inflight w
   /\ next_request (setAttribute "model-url" url w) = next_request w)
  /\ (url <> EmptyString -> getAttribute "model-url" w <> Some url ->
      inflight (setAttribute "model-url" url w) = inflight w ++ [(next_request w, url)]
      /\ next_request (setAttribute "model-url" url w) = S (next_request w)).
Proof.
  intros Hi. rewrite setAttribute_observed by tauto.
  set (w1 := update_this _ w).
  unfold attributeChangedCallback.
  change (isInitialized (this w1)) with (isInitialized (this w)). rewrite Hi.
  cbn [negb String.eqb Ascii.eqb Bool.eqb]. split.
  - intros [-> | Hsame]; [done|].
    destruct url; [done|]. rewrite Hsame, bool_decide_eq_true_2 by done. done.
  - intros Hne Hdiff. destruct url as [|a url]; [done|].
    rewrite bool_decide_eq_false_2 by congruence. done.
Qed.

Lemma model_url_change_loads_once_witness :
  inflight (setAttribute "model-url" "a.glb" loaded) = inflight loaded.
Proof.
  assert (Hi : isInitialized (this loaded) = true) by reflexivity.
  assert (Ha : getAttribute "model-url" loaded = Some "a.glb"%string) by reflexivity.
  exact (proj1 (proj1 (model_url_change_loads_once loaded "a.glb" Hi) (or_intror Ha))).
Defined.

(** X17: an element connected without a [background] attribute has a
    transparent scene, but removing the attribute from an initialised element
    makes the background black ([#000000]); the values ["transparent"] and
    the empty string make it transparent and any other value is the
    colour. *)
Theorem background_attribute
    (page w : World) (s : Scene) (oldValue : option string) (value : string) :
  getAttribute "background" page = None ->
  isInitialized (this w) = true ->
  scene (this w) = Some s ->
  background <$> scene (this (fst (connectedCallback page))) = Some None
  /\ background <$> scene (this (attributeChangedCallback "background" oldValue None w))
     = Some (Some "#000000"%string)
  /\ background <$> scene (this (attributeChangedCallback "background" oldValue
                                   (Some value) w))
     = Some (background_of value)
  /\ scene_children <$> scene (this (attributeChangedCallback "background" oldValue
                                       (Some value) w))
     = Some (scene_children s).
Proof.
  intros Hb Hi Hs. split.
  - unfold connectedCallback. cbv zeta.
    set (w1 := update_this _ page).
    destruct (initScene_counts w1) as (_ & _ & _ & Hd & _ & _ & _ & Hbg & _ & [r Hren]).
    change (isTouchDevice (this w1)) with (isTouchDevice (this page)) in Hd.
    change (backgroundColor (this w1))
      with (Some (or_default (getAttribute "background" page) "transparent")) in Hbg.
    rewrite Hb in Hbg. change (background_of _) with (@None string) in Hbg.
    revert Hd Hbg Hren. generalize (initScene w1). intros w0 Hd Hbg Hren.
    set (w2 := match modelUrl (this w0) with
               | Some (String _ _ as url) => loadModel url w0
               | _ => w0
               end).
    assert (H2 : this w2 = this w0).
    { subst w2. by destruct (modelUrl (this w0)) as [[|a url]|]. }
    unfold setupTouchEvents.
    change (this (set_resize_listeners (S (resize_listeners w2)) w2)) with (this w2).
    rewrite H2, Hren. destruct (isTouchDevice (this w0)); cbn; by rewrite ?H2.
  - unfold attributeChangedCallback. rewrite Hi.
    cbn [negb String.eqb Ascii.eqb Bool.eqb]. rewrite Hs. repeat split.
Qed.

Lemma background_attribute_witness :
  background <$> scene (this (attributeChangedCallback "background" (Some "red"%string)
                                None
                                (setAttribute "background" "red" idle)))
  = Some (Some "#000000"%string).
Proof.
  assert (Hb : getAttribute "background" desktop = None) by reflexivity.
  assert (Hi : isInitialized (this (setAttribute "background" "red" idle)) = true)
    by reflexivity.
  assert (Hs : scene (this (setAttribute "background" "red" idle))
               = Some (mkScene (Some "red"%string) [0; 1]%nat)) by reflexivity.
  exact (proj1 (proj2 (background_attribute desktop _ _ (Some "red"%string) "blue"
                         Hb Hi Hs))).
Defined.

(** X18: rotation by itself depends on the presence of the [auto-rotate]
    attribute, not on its value: on an initialised element a write of any
    value, ["false"] included, switches it on; at connection it is on
    exactly when the attribute is there. *)
Theorem auto_rotate_is_a_presence_flag (page w : World) (value : string) :
  isInitialized (this w) = true ->
  isAutoRotate (this (setAttribute "auto-rotate" value w)) = true
  /\ isAutoRotate (this (fst (connectedCallback page)))
     = hasAttribute "auto-rotate" page.
Proof.
  intros Hi. split.
  - rewrite setAttribute_observed by tauto.
    set (w1 := update_this _ w).
    unfold attributeChangedCallback.
    change (isInitialized (this w1)) with (isInitialized (this w)). rewrite Hi.
    cbn [negb String.eqb Ascii.eqb Bool.eqb].
    unfold hasAttribute. subst w1. cbn. by rewrite lookup_insert_eq.
  - unfold connectedCallback. cbv zeta.
    set (w1 := update_this _ page).
    destruct (initScene_flags w1) as (Ha & Hd & [r Hren]).
    change (isAutoRotate (this w1)) with (hasAttribute "auto-rotate" page) in Ha.
    revert Ha Hd Hren. generalize (initScene w1). intros w0 Ha Hd Hren.
    set (w2 := match modelUrl (this w0) with
               | Some (String _ _ as url) => loadModel url w0
               | _ => w0
               end).
    assert (H2 : this w2 = this w0).
    { subst w2. by destruct (modelUrl (this w0)) as [[|a url]|]. }
    unfold setupTouchEvents.
    change (this (set_resize_listeners (S (resize_listeners w2)) w2)) with (this w2).
    rewrite H2, Hren. destruct (isTouchDevice (this w0)); cbn; by rewrite ?H2.
Qed.

Lemma auto_rotate_is_a_presence_flag_witness :
  isAutoRotate (this (setAttribute "auto-rotate" "false" loaded)) = true.
Proof.
  assert (Hi : isInitialized (this loaded) = true) by reflexivity.
  exact (proj1 (auto_rotate_is_a_presence_flag page loaded "false" Hi)).
Defined.

(** X19: an attribute written before the element is connected is not
    applied by [attributeChangedCallback], which returns at once, but it is
    read at connection: the speed of rotation after connecting is that of the
    [rotate-speed] attribute written before. *)
Theorem attribute_written_before_connection (w : World) (value : string) :
  isInitialized (this w) = false ->
  this (setAttribute "rotate-speed" value w)
  = set_attributes (<["rotate-speed"%string := value]> (attributes (this w))) (this w)
  /\ rotateSpeed (this (setAttribute "rotate-speed" value w)) = rotateSpeed (this w)
  /\ rotateSpeed (this (fst (connectedCallback (setAttribute "rotate-speed" value w))))
     = parseFloat (or_default (Some value) "0.005").
Proof.
  intros Hi.
  assert (He : setAttribute "rotate-speed" value w
               = update_this
                   (set_attributes (<["rotate-speed"%string := value]> (attributes (this w))))
                   w).
  { rewrite setAttribute_observed by tauto.
    unfold attributeChangedCallback.
    change (isInitialized (this (update_this _ w))) with (isInitialized (this w)).
    by rewrite Hi. }
  rewrite He. repeat split.
  destruct (connectedCallback_numbers
              (update_this
                 (set_attributes (<["rotate-speed"%string := value]> (attributes (this w))))
                 w)) as (Hr & _).
  rewrite Hr. unfold getAttribute. cbn. by rewrite lookup_insert_eq.
Qed.

Lemma attribute_written_before_connection_witness :
  rotateSpeed (this (fst (connectedCallback (setAttribute "rotate-speed" "0.02" desktop))))
  = parseFloat (or_default (Some "0.02"%string) "0.005").
Proof.
  assert (Hi : isInitialized (this desktop) = false) by reflexivity.
  exact (proj2 (proj2 (attribute_written_before_connection desktop "0.02" Hi))).
Defined.

(** ** The camera, again *)

(** X20: [resetCamera] does nothing before the element has a camera; with a
    camera and no model it puts the camera at (0, 0, 5), which is not where
    [initScene] puts it, (0, 0, 3); the field of view and the aspect stay,
    and so does everything else. *)
Theorem resetCamera_without_model (box : Box3) (w : World) (c : PerspectiveCamera) :
  model (this w) = None ->
  (camera (this w) = None -> resetCamera box w = w)
  /\ (camera (this w) = Some c ->
      resetCamera box w
      = update_this (set_camera (Some (mkCamera (fov c) (aspect c) (vec 0 0 5)))) w)
  /\ camera_position <$> camera (this (initScene w)) = Some (vec 0 0 3)
  /\ camera_position <$> camera (this (resetCamera box (initScene w))) = Some (vec 0 0 5).
Proof.
  intros Hm. unfold resetCamera. rewrite Hm. repeat split.
  - by intros ->.
  - by intros ->.
  - apply initScene_counts.
  - destruct (initScene_counts w) as (_ & _ & _ & _ & Hm' & _ & _ & _ & Hc & _).
    rewrite Hm in Hm'. rewrite Hm'.
    by destruct (camera (this (initScene w))).
Qed.

Lemma resetCamera_without_model_witness :
  camera_position <$> camera (this (resetCamera box222 (initScene desktop)))
  = Some (vec 0 0 5).
Proof.
  exact (proj2 (proj2 (proj2 (resetCamera_without_model box222 desktop
                                (mkCamera (Finite 45) (Finite 1) (vec 0 0 3)) eq_refl)))).
Defined.

(** X22: [onWindowResize] does nothing before the element has a camera and
    a renderer.  Afterwards it sets the aspect of the camera to the width of
    the container over its height and gives that size to the renderer,
    whatever the aspect was; the position and the field of view of the
    camera stay, and a second run changes nothing more. *)
Theorem onWindowResize_sets_aspect
    (w : World) (c : PerspectiveCamera) (r : WebGLRenderer) (width height : R) :
  camera (this w) = Some c ->
  renderer (this w) = Some r ->
  height <> 0 ->
  let resized := onWindowResize (resizeContainer width height w) in
  camera (this (fst resized))
  = Some (mkCamera (fov c) (Finite (width / height)) (camera_position c))
  /\ snd resized = Some (width, height)
  /\ heap (fst resized) = heap w
  /\ onWindowResize (fst resized) = resized
  /\ forall attrs touch time,
       onWindowResize (createElement attrs touch time width height)
       = (createElement attrs touch time width height, None).
Proof.
  intros Hc Hr Hh resized. subst resized. unfold onWindowResize.
  change (camera (this (resizeContainer width height w))) with (camera (this w)).
  change (renderer (this (resizeContainer width height w))) with (renderer (this w)).
  rewrite Hc, Hr. cbn [fst snd clientWidth clientHeight resizeContainer].
  rewrite (ndiv_finite width height Hh).
  destruct w as [t hp dp fr inf nr ds cs rl tl nw cw ch].
  destruct t as [attrs sc cam ren md mx ck ar rs ini td tx ty thr hpn tms wd hg mu bg ms].
  simpl in Hc, Hr. subst. cbn -[ndiv]. rewrite ?(ndiv_finite width height Hh).
  repeat split.
Qed.

Lemma onWindowResize_sets_aspect_witness :
  camera (this (fst (onWindowResize (resizeContainer 800 200 idle))))
  = Some (mkCamera (Finite 45) (Finite (800 / 200)) (vec 0 0 3)).
Proof.
  assert (Hc : camera (this idle)
               = Some (mkCamera (Finite 45) (ndiv (Finite 400) (Finite 300)) (vec 0 0 3)))
    by reflexivity.
  assert (Hr : renderer (this idle) = Some (mkRenderer 0 1)) by reflexivity.
  assert (Hh : 200 <> 0) by lra.
  exact (proj1 (onWindowResize_sets_aspect idle _ _ 800 200 Hc Hr Hh)).
Defined.

(** ** Disposal *)

Lemma traverse_unfold (o : Object3D) :
  traverse o = o :: List.flat_map traverse (children o).
Proof. by destruct o. Qed.

Lemma traverse_descendant (d o : Object3D) : In d (traverse o) <-> descendant d o.
Proof.
  split.
  - revert d. induction o as [o IH] using Object3D_induction. intros d.
    rewrite traverse_unfold. intros [<- | H]; [constructor|].
    apply in_flat_map in H as (c & Hc & Hd).
    apply (descendant_child d c o Hc).
    rewrite List.Forall_forall in IH. by apply IH.
  - induction 1 as [o | d c o Hc _ IH]; rewrite traverse_unfold; [by left|].
    right. apply in_flat_map. by exists c.
Qed.

Lemma dispose_callback_owns (o : Object3D) (r : Resource) :
  In r (dispose_callback o) <-> owns o r.
Proof.
  unfold dispose_callback, owns. rewrite in_app_iff.
  destruct r as [g|m], (geometry o) as [g'|], (material o) as [[m'|ms]|]; simpl;
    rewrite ?in_map_iff; split; intros H;
    repeat match goal with
           | H : _ \/ _ |- _ => destruct H
           | H : exists _, _ |- _ => destruct H
           | H : _ /\ _ |- _ => destruct H
           | H : False |- _ => destruct H
           | H : Some _ = Some _ |- _ => injection H as H
           | H : GeometryResource _ = GeometryResource _ |- _ => injection H as H
           | H : MaterialResource _ = MaterialResource _ |- _ => injection H as H
           end; subst; try discriminate; eauto 6.
Qed.

(** X23: [disposeScene] calls [dispose()] on a resource exactly when the
    resource is the geometry, the material or one of the materials of an
    object reached from a child of the scene through [children]; the calls
    are added to those made before, and nothing else changes. *)
Theorem disposeScene_reaches_every_resource (s : Scene) (w : World) (r : Resource) :
  (In r (disposed (disposeScene s w)) <->
   In r (disposed w)
   \/ exists ref root o,
        In ref (scene_children s) /\ heap w !! ref = Some root
        /\ descendant o root /\ owns o r)
  /\ this (disposeScene s w) = this w
  /\ heap (disposeScene s w) = heap w
  /\ exists added, disposed (disposeScene s w) = disposed w ++ added.
Proof.
  unfold disposeScene. cbn [disposed set_disposed this heap].
  repeat split; [| |by eexists].
  - intros H. apply in_app_or in H as [H|H]; [by left | right].
    apply in_flat_map in H as (o & Ho & Hr).
    apply in_flat_map in Ho as (root & Hroot & Ho).
    apply list_elem_of_In, list_elem_of_omap in Hroot as (ref & Href & Hl).
    exists ref, root, o. repeat split.
    + by apply list_elem_of_In.
    + exact Hl.
    + by apply traverse_descendant.
    + by apply dispose_callback_owns.
  - intros [H | (ref & root & o & Href & Hl & Hd & Ho)];
      apply in_or_app; [by left | right].
    apply in_flat_map. exists o. split; [|by apply dispose_callback_owns].
    apply in_flat_map. exists root. split; [|by apply traverse_descendant].
    apply list_elem_of_In, list_elem_of_omap. exists ref. split; [|exact Hl].
    by apply list_elem_of_In.
Qed.

(** X24: [disconnectedCallback] disposes of the renderer and of everything
    in the scene but forgets nothing: the model, the scene and the renderer
    stay in their fields.  Run a second time it disposes of all of it
    again. *)
Theorem disconnect_twice_disposes_twice (w : World) :
  let resources := List.flat_map dispose_callback
                     (List.flat_map traverse (scene_objects w)) in
  disposed (disconnectedCallback w) = disposed w ++ resources
  /\ disposed (disconnectedCallback (disconnectedCallback w))
     = (disposed w ++ resources) ++ resources
  /\ dispose_calls <$> renderer (this (disconnectedCallback (disconnectedCallback w)))
     = (fun n => S (S n)) <$> (dispose_calls <$> renderer (this w))
  /\ model (this (disconnectedCallback w)) = model (this w)
  /\ scene (this (disconnectedCallback w)) = scene (this w)
  /\ heap (disconnectedCallback w) = heap w.
Proof.
  destruct w as [t hp dp fr inf nr ds cs rl tl nw cw ch].
  destruct t as [attrs sc cam ren md mx ck ar rs ini td tx ty thr hpn tms wd hg mu bg ms].
  unfold disconnectedCallback, disposeScene, scene_objects.
  destruct ren as [r|], sc as [s|]; cbn; rewrite ?app_nil_r; repeat split.
Qed.

(** ** Whole gestures, connection and a speed that is not a number *)

Lemma gesture_of_ceded (es : list TouchEvent) (w : World) :
  phase w = CededVertical ->
  heap (gesture (List.map TouchMove es ++ [TouchEnd]) w) = heap w.
Proof.
  intros Hp. induction es as [|e es IH].
  - cbn [List.map app gesture]. unfold dispatchTouch.
    by destruct (touch_listeners w).
  - cbn [List.map app gesture].
    assert (He : fst (dispatchTouch (TouchMove e) w) = w).
    { unfold dispatchTouch. destruct (touch_listeners w); [|reflexivity].
      by rewrite ceded_move_is_noop. }
    rewrite He. exact IH.
Qed.

(** X25: a gesture whose first move beyond the threshold is not horizontal
    enough never turns the model, however far the finger goes sideways
    afterwards; when the finger is lifted the scene graph is as it was
    before the gesture. *)
Theorem scrolling_gesture_never_turns_the_model
    (w : World) (start first : Touch) (later : list TouchEvent) :
  touch_listeners w = true ->
  Rabs (clientX first - clientX start) > touchThreshold (this w)
  \/ Rabs (clientY first - clientY start) > touchThreshold (this w) ->
  ~ (Rabs (clientX first - clientX start) > Rabs (clientY first - clientY start) * 2
     /\ Rabs (clientX first - clientX start) > touchThreshold (this w)) ->
  heap (gesture ([TouchStart (mkTouchEvent [start]); TouchMove (mkTouchEvent [first])]
                 ++ List.map TouchMove later ++ [TouchEnd]) w) = heap w.
Proof.
  intros Hl Hd Hn.
  change (gesture ([?a; ?b] ++ ?l) w)
    with (gesture l (fst (dispatchTouch b (fst (dispatchTouch a w))))).
  assert (H1 : fst (dispatchTouch (TouchStart (mkTouchEvent [start])) w)
               = on_touchstart (mkTouchEvent [start]) w).
  { unfold dispatchTouch. by rewrite Hl. }
  rewrite H1.
  set (w1 := on_touchstart (mkTouchEvent [start]) w).
  assert (Hl1 : touch_listeners w1 = true) by exact Hl.
  unfold dispatchTouch. rewrite Hl1.
  rewrite (deciding_move_cedes w1 None first);
    [| reflexivity | exact Hd | exact Hn].
  cbn [fst].
  set (w2 := update_this (set_isHorizontalPan false) _).
  rewrite (gesture_of_ceded later w2); reflexivity.
Qed.

Lemma scrolling_gesture_never_turns_the_model_witness :
  heap (gesture ([TouchStart (mkTouchEvent [mkTouch 100 100]);
                  TouchMove (mkTouchEvent [mkTouch 104 130])]
                 ++ List.map TouchMove [mkTouchEvent [mkTouch 300 131]] ++ [TouchEnd])
          loaded)
  = heap loaded.
Proof.
  assert (Hl : touch_listeners loaded = true) by reflexivity.
  assert (Ht : touchThreshold (this loaded) = 15) by reflexivity.
  apply (scrolling_gesture_never_turns_the_model
           loaded (mkTouch 100 100) (mkTouch 104 130) [mkTouchEvent [mkTouch 300 131]] Hl).
  - right. rewrite Ht. simpl clientY. rewrite Rabs_pos_eq; lra.
  - rewrite Ht. simpl clientX; simpl clientY. rewrite !Rabs_pos_eq by lra. lra.
Defined.

Lemma initScene_requests (w : World) :
  inflight (initScene w) = inflight w
  /\ next_request (initScene w) = next_request w
  /\ modelUrl (this (initScene w)) = modelUrl (this w)
  /\ is_Some (renderer (this (initScene w))).
Proof.
  destruct w as [t hp dp fr inf nr ds cs rl tl nw cw ch].
  destruct t as [attrs sc cam ren md mx [going ot] ar rs ini td tx ty thr hpn tms
                 wd hg mu bg ms].
  destruct ar, md as [m|], mx as [mixer|], going;
    (repeat split; try reflexivity; exists (mkRenderer 0 1); reflexivity).
Qed.

(** X26: connecting the element issues one request, for the value of
    [model-url], when that attribute is there and not empty, and none
    otherwise. *)
Theorem connection_loads_the_model_url (w : World) (url : string) :
  ((getAttribute "model-url" w = None \/ getAttribute "model-url" w = Some EmptyString) ->
   inflight (fst (connectedCallback w)) = inflight w)
  /\ (getAttribute "model-url" w = Some url -> url <> EmptyString ->
      inflight (fst (connectedCallback w)) = inflight w ++ [(next_request w, url)]).
Proof.
  unfold connectedCallback. cbv zeta.
  set (w1 := update_this _ w).
  destruct (initScene_requests w1) as (Hi & Hn & Hu & [r Hren]).
  change (inflight w1) with (inflight w) in Hi.
  change (next_request w1) with (next_request w) in Hn.
  change (modelUrl (this w1))
    with (Some (or_default (getAttribute "model-url" w) EmptyString)) in Hu.
  revert Hi Hn Hu Hren. generalize (initScene w1). intros w0 Hi Hn Hu Hren.
  assert (Hs : forall v, inflight (fst (setupTouchEvents v)) = inflight v).
  { intros v. unfold setupTouchEvents.
    destruct (negb (isTouchDevice (this v))); [reflexivity|].
    by destruct (renderer (this v)). }
  rewrite Hs. cbn [inflight set_resize_listeners]. rewrite Hu. split.
  - intros [-> | ->]; exact Hi.
  - intros -> Hne. rewrite or_default_text by exact Hne.
    destruct url as [|a url]; [done|]. cbn. by rewrite Hi, Hn.
Qed.

Lemma connection_loads_the_model_url_witness :
  inflight (fst (connectedCallback page)) = inflight page ++ [(next_request page, "a.glb"%string)].
Proof.
  assert (Ha : getAttribute "model-url" page = Some "a.glb"%string) by reflexivity.
  assert (Hne : "a.glb"%string <> EmptyString) by discriminate.
  exact (proj2 (connection_loads_the_model_url page "a.glb") Ha Hne).
Defined.

(** X27: with [auto-rotate] and a speed of rotation that is NaN, the first
    tick makes the rotation of the model NaN, and NaN it stays at every
    later tick. *)
Theorem nan_speed_spoils_the_rotation
    (t : R) (ts : list R) (w : World) (m : nat) (r : number) :
  frames w <> 0%nat ->
  isAutoRotate (this w) = true ->
  model (this w) = Some m ->
  rotation_y <$> installed w = Some r ->
  rotateSpeed (this w) = NaN ->
  rotation_y <$> installed (ticks (t :: ts) w) = Some NaN.
Proof.
  revert t w r. induction ts as [|t' ts IH]; intros t w r Hf Ha Hm Hr Hs;
    (destruct (frames w) as [|n] eqn:Hn; [done|]);
    cbn [ticks]; rewrite (tick_running t w n Hn);
    set (w0 := set_now t (set_frames n w));
    destruct (animate_effect w0) as (Hh & _ & _ & Ha' & Hs' & Hm' & _);
    destruct (animate_schedules w0) as (Hf' & _);
    change (isAutoRotate (this w0)) with (isAutoRotate (this w)) in *;
    change (model (this w0)) with (model (this w)) in *;
    change (rotateSpeed (this w0)) with (rotateSpeed (this w)) in *;
    change (heap w0) with (heap w) in *;
    rewrite Ha, Hm, Hs in Hh;
    assert (Hr' : rotation_y <$> installed (animate w0) = Some NaN)
      by (unfold installed in *; rewrite Hm', Hm, Hh, list_lookup_alter_eq;
          rewrite Hm in Hr; destruct (heap w !! m) as [o|]; [|discriminate];
          cbn in *; by destruct (rotation_y o)).
  - exact Hr'.
  - apply (IH t' (animate w0) NaN).
    + rewrite Hf'. discriminate.
    + by rewrite Ha'.
    + by rewrite Hm'.
    + exact Hr'.
    + by rewrite Hs'.
Qed.

Lemma nan_speed_spoils_the_rotation_witness :
  rotation_y <$> installed (ticks [16; 33] dizzy) = Some NaN.
Proof.
  assert (Hf1 : frames dizzy = 1%nat) by reflexivity.
  assert (Hf : frames dizzy <> 0%nat) by (rewrite Hf1; discriminate).
  assert (Ha : isAutoRotate (this dizzy) = true) by reflexivity.
  assert (Hm : model (this dizzy) = Some 2%nat) by reflexivity.
  assert (Hr : rotation_y <$> installed dizzy = Some (Finite 0)) by reflexivity.
  assert (Hs : rotateSpeed (this dizzy) = NaN) by reflexivity.
  exact (nan_speed_spoils_the_rotation 16 [33] dizzy 2%nat (Finite 0) Hf Ha Hm Hr Hs).
Defined.
